(** * markdown2html: a line-oriented Markdown to HTML converter

    Shallow embedding of [markdown2html.py] and the properties of its
    block state machine and inline substitution passes.

    Conventions of the embedding.
    - A Python [str] is a list of Unicode code points ([text]); string
      literals of the source are written [str "..."].
    - The input file is the list of lines that iterating over the text
      file yields (each line still carrying its line terminator, if any).
    - Every [html_file.write] of the source writes exactly one line that
      ends in a newline; the output is the list of these lines, without
      the terminator, and [render] gives the text of the file.
    - The one exception the conversion itself can raise is the
      [UnicodeEncodeError] of [str.encode] on a lone surrogate; it is
      carried by [option]. *)

From Equations Require Import Equations.
From stdpp Require Import gmap strings list.

(** ** Text: Python strings as lists of code points *)

Definition char := N.
Definition text := list char.

(** A literal of the source (ASCII only). *)
Definition str (s : string) : text :=
  map Ascii.N_of_ascii (String.list_ascii_of_string s).

#[global] Arguments str : simpl never.

Definition newline : char := 10%N.
Definition space : char := 32%N.

(** [str.isspace] on one code point: the characters that [str.strip()]
    removes when called without argument. *)
Definition is_space (c : char) : bool :=
  ((9 <=? c) && (c <=? 13) || (28 <=? c) && (c <=? 32)
   || (c =? 133) || (c =? 160) || (c =? 5760)
   || (8192 <=? c) && (c <=? 8202)
   || (c =? 8232) || (c =? 8233) || (c =? 8239) || (c =? 8287)
   || (c =? 12288))%N.

Fixpoint lstrip (s : text) : text :=
  match s with
  | [] => []
  | c :: s' => if is_space c then lstrip s' else s
  end.

Definition rstrip (s : text) : text := rev (lstrip (rev s)).

(** [s.strip()] *)
Definition strip (s : text) : text := rstrip (lstrip s).

(** [s.startswith(p)] *)
Fixpoint startswith (p s : text) : bool :=
  match p, s with
  | [], _ => true
  | a :: p', b :: s' => (a =? b)%N && startswith p' s'
  | _ :: _, [] => false
  end.

(** [s.split(sep)] for a one-character separator: never empty. *)
Fixpoint split (sep : char) (s : text) : list text :=
  match s with
  | [] => [[]]
  | c :: s' =>
      if (c =? sep)%N then [] :: split sep s'
      else match split sep s' with
           | w :: ws => (c :: w) :: ws
           | [] => [[c]]
           end
  end.

(** [s.replace(c, '')] for a one-character [c]. *)
Definition remove_char (c : char) (s : text) : text :=
  filter (fun x => x ≠ c) s.

(** [str(n)] for a non-negative integer: its decimal digits. *)
Fixpoint uint_text (d : Decimal.uint) : text :=
  match d with
  | Decimal.Nil => []
  | Decimal.D0 d => 48%N :: uint_text d
  | Decimal.D1 d => 49%N :: uint_text d
  | Decimal.D2 d => 50%N :: uint_text d
  | Decimal.D3 d => 51%N :: uint_text d
  | Decimal.D4 d => 52%N :: uint_text d
  | Decimal.D5 d => 53%N :: uint_text d
  | Decimal.D6 d => 54%N :: uint_text d
  | Decimal.D7 d => 55%N :: uint_text d
  | Decimal.D8 d => 56%N :: uint_text d
  | Decimal.D9 d => 57%N :: uint_text d
  end.

Definition format_int (n : nat) : text := uint_text (Nat.to_uint n).

(** [contains d s]: the text [d] occurs in [s] as a substring
    ([d in s] in Python). *)
Fixpoint contains (d s : text) : bool :=
  startswith d s ||
  match s with
  | [] => false
  | _ :: s' => contains d s'
  end.

(** ** [str.encode()]: UTF-8 *)

Module Utf8.
Local Open Scope N_scope.

(** Continuation byte carrying bits [6k .. 6k+5] of [c]. *)
Definition cont (c : N) (k : N) : N :=
  N.lor 128 (N.land (N.shiftr c (6 * k)) 63).

(** The bytes of one code point; [None] is the [UnicodeEncodeError]
    raised for a surrogate (and for a value that is no code point). *)
Definition encode_char (c : char) : option (list N) :=
  if c <? 128 then Some [c]
  else if c <? 2048 then Some [N.lor 192 (N.shiftr c 6); cont c 0]
  else if (55296 <=? c) && (c <=? 57343) then None
  else if c <? 65536 then
    Some [N.lor 224 (N.shiftr c 12); cont c 1; cont c 0]
  else if c <? 1114112 then
    Some [N.lor 240 (N.shiftr c 18); cont c 2; cont c 1; cont c 0]
  else None.

Fixpoint encode (s : text) : option (list N) :=
  match s with
  | [] => Some []
  | c :: s' =>
      match encode_char c, encode s' with
      | Some b, Some bs => Some (b ++ bs)
      | _, _ => None
      end
  end.

End Utf8.

(** ** [hashlib.md5(...).hexdigest()]

    The digest function belongs to the Python standard library, not to
    this program; it is modelled here from RFC 1321 on 32-bit words held
    in [N] with the wrap-around written out. *)

Module MD5.
Local Open Scope N_scope.

Definition mask32 : N := 4294967295.
Definition add32 (x y : N) : N := N.land (x + y) mask32.
Definition not32 (x : N) : N := N.lxor x mask32.
Definition rotl32 (x s : N) : N :=
  N.land (N.lor (N.shiftl x s) (N.shiftr x (32 - s))) mask32.

Definition F (b c d : N) := N.lor (N.land b c) (N.land (not32 b) d).
Definition G (b c d : N) := N.lor (N.land b d) (N.land c (not32 d)).
Definition H (b c d : N) := N.lxor b (N.lxor c d).
Definition I (b c d : N) := N.lxor c (N.lor b (not32 d)).

(** Per-round shift amounts. *)
Definition shifts : list N :=
  [7; 12; 17; 22; 7; 12; 17; 22; 7; 12; 17; 22; 7; 12; 17; 22;
   5; 9; 14; 20; 5; 9; 14; 20; 5; 9; 14; 20; 5; 9; 14; 20;
   4; 11; 16; 23; 4; 11; 16; 23; 4; 11; 16; 23; 4; 11; 16; 23;
   6; 10; 15; 21; 6; 10; 15; 21; 6; 10; 15; 21; 6; 10; 15; 21].

(** [K i = floor (2^32 * abs (sin (i + 1)))]. *)
Definition K : list N :=
  [0xd76aa478; 0xe8c7b756; 0x242070db; 0xc1bdceee;
   0xf57c0faf; 0x4787c62a; 0xa8304613; 0xfd469501;
   0x698098d8; 0x8b44f7af; 0xffff5bb1; 0x895cd7be;
   0x6b901122; 0xfd987193; 0xa679438e; 0x49b40821;
   0xf61e2562; 0xc040b340; 0x265e5a51; 0xe9b6c7aa;
   0xd62f105d; 0x02441453; 0xd8a1e681; 0xe7d3fbc8;
   0x21e1cde6; 0xc33707d6; 0xf4d50d87; 0x455a14ed;
   0xa9e3e905; 0xfcefa3f8; 0x676f02d9; 0x8d2a4c8a;
   0xfffa3942; 0x8771f681; 0x6d9d6122; 0xfde5380c;
   0xa4beea44; 0x4bdecfa9; 0xf6bb4b60; 0xbebfbc70;
   0x289b7ec6; 0xeaa127fa; 0xd4ef3085; 0x04881d05;
   0xd9d4d039; 0xe6db99e5; 0x1fa27cf8; 0xc4ac5665;
   0xf4292244; 0x432aff97; 0xab9423a7; 0xfc93a039;
   0x655b59c3; 0x8f0ccc92; 0xffeff47d; 0x85845dd1;
   0x6fa87e4f; 0xfe2ce6e0; 0xa3014314; 0x4e0811a1;
   0xf7537e82; 0xbd3af235; 0x2ad7d2bb; 0xeb86d391].

Record regs := Regs { ra : N; rb : N; rc : N; rd : N }.

Definition init : regs :=
  Regs 0x67452301 0xefcdab89 0x98badcfe 0x10325476.

(** One of the 64 operations on the message words [M] of a block. *)
Definition step (M : list N) (r : regs) (i : nat) : regs :=
  let '(f, g) :=
    if (i <? 16)%nat then (F (rb r) (rc r) (rd r), i)
    else if (i <? 32)%nat then (G (rb r) (rc r) (rd r), (5 * i + 1) mod 16)%nat
    else if (i <? 48)%nat then (H (rb r) (rc r) (rd r), (3 * i + 5) mod 16)%nat
    else (I (rb r) (rc r) (rd r), (7 * i) mod 16)%nat in
  let x := add32 (add32 (add32 (ra r) f) (nth i K 0)) (nth g M 0) in
  Regs (rd r) (add32 (rb r) (rotl32 x (nth i shifts 0))) (rb r) (rc r).

(** Little-endian 32-bit words of a byte sequence. *)
Fixpoint words (n : nat) (bs : list N) : list N :=
  match n with
  | O => []
  | S n' =>
      match bs with
      | b0 :: b1 :: b2 :: b3 :: bs' =>
          (b0 + N.shiftl b1 8 + N.shiftl b2 16 + N.shiftl b3 24) :: words n' bs'
      | _ => []
      end
  end.

Definition block (r : regs) (bs : list N) : regs :=
  let r' := fold_left (step (words 16 bs)) (seq 0 64) r in
  Regs (add32 (ra r) (ra r')) (add32 (rb r) (rb r'))
       (add32 (rc r) (rc r')) (add32 (rd r) (rd r')).

(** [n] little-endian bytes of [x]. *)
Fixpoint le_bytes (n : nat) (x : N) : list N :=
  match n with
  | O => []
  | S n' => N.land x 255 :: le_bytes n' (N.shiftr x 8)
  end.

(** The message followed by the bit 1, zeros up to 56 modulo 64, and the
    bit length on 64 bits. *)
Definition pad (msg : list N) : list N :=
  let len := length msg in
  msg ++ [128] ++ repeat 0 ((119 - len mod 64) mod 64)%nat
      ++ le_bytes 8 (8 * N.of_nat len).

Fixpoint blocks (n : nat) (r : regs) (bs : list N) : regs :=
  match n with
  | O => r
  | S n' => blocks n' (block r (take 64 bs)) (drop 64 bs)
  end.

Definition digest (msg : list N) : list N :=
  let p := pad msg in
  let r := blocks (length p / 64) init p in
  le_bytes 4 (ra r) ++ le_bytes 4 (rb r) ++ le_bytes 4 (rc r) ++ le_bytes 4 (rd r).

Definition hex_digit (d : N) : char := if d <? 10 then 48 + d else 87 + d.

Definition hex (bs : list N) : text :=
  flat_map (fun b => [hex_digit (N.shiftr b 4); hex_digit (N.land b 15)]) bs.

Definition hexdigest (msg : list N) : text := hex (digest msg).

End MD5.

(** [hashlib.md5(t.encode()).hexdigest()] *)
Definition md5_hex (t : text) : option text :=
  MD5.hexdigest <$> Utf8.encode t.

(** ** [re.sub] for the patterns of the program

    All four patterns have the shape [OPEN(.+?)CLOSE] with literal
    delimiters of two characters.  [.] matches any character except a
    newline; [+?] takes at least one character and as few as possible. *)

Module Regex.

(** A literal at the head of [s]: what is left after it. *)
Definition lit (p s : text) : option text :=
  if startswith p s then Some (drop (length p) s) else None.

(** [(.+?)CLOSE] at the head of [s]: group 1 and what is left after the
    match.  One character is consumed first; then the closing delimiter is
    tried before any further character is taken. *)
Fixpoint lazy_plus (close s : text) : option (text * text) :=
  match s with
  | [] => None
  | c :: s' =>
      if (c =? newline)%N then None
      else match lit close s' with
           | Some rest => Some ([c], rest)
           | None =>
               match lazy_plus close s' with
               | Some (inner, rest) => Some (c :: inner, rest)
               | None => None
               end
           end
  end.

(** The whole pattern anchored at the head of [s]. *)
Definition match_at (open close s : text) : option (text * text) :=
  match lit open s with
  | Some s1 => lazy_plus close s1
  | None => None
  end.

(** What the scan of [re.sub] sees from left to right: a character that
    starts no match, or a match (kept as its group 1). *)
Inductive piece := Plain (c : char) | Span (inner : text).

Definition inspect {A} (a : A) : {b | a = b} := exist _ a eq_refl.

(** The leftmost non-overlapping matches of the pattern in [s]: a match
    is looked for at the current position; after a match the scan goes on
    behind it, otherwise one character further. *)
Equations? re_scan (open close s : text) : list piece by wf (length s) lt :=
  re_scan open close [] := [];
  re_scan open close (c :: s') with inspect (match_at open close (c :: s')) => {
    | exist _ (Some (inner, rest)) Hm := Span inner :: re_scan open close rest;
    | exist _ None _ := Plain c :: re_scan open close s' }.
Proof.
  - (* a match consumes at least the character of group 1 *)
    assert (forall p s r, lit p s = Some r -> length r <= length s) as Hlit.
    { intros p s r. unfold lit. destruct (startswith p s); [|done].
      intros [= <-]. rewrite length_drop. lia. }
    assert (forall s i r, lazy_plus close s = Some (i, r) -> length r < length s)
      as Hplus.
    { induction s as [|x s IH]; intros i r; simpl; [done|].
      destruct (x =? newline)%N; [done|].
      destruct (lit close s) as [r'|] eqn:E.
      - intros [= <- <-]. apply Hlit in E. lia.
      - destruct (lazy_plus close s) as [[i' r']|]; [|done].
        intros [= <- <-]. specialize (IH _ _ eq_refl). lia. }
    unfold match_at in Hm. destruct (lit open (c :: s')) as [s1|] eqn:E; [|done].
    apply Hlit in E. apply Hplus in Hm. simpl in *. lia.
  - simpl. lia.
Qed.

(** [re.sub(pattern, repl, s)] for a replacement that cannot fail
    (a template such as [<b>\1</b>], or a total function of group 1). *)
Definition re_sub (open close : text) (repl : text -> text) (s : text) : text :=
  concat (map (fun p => match p with Plain c => [c] | Span i => repl i end)
              (re_scan open close s)).

(** [re.sub(pattern, repl, s)] for a callback that may raise. *)
Definition re_sub_try (open close : text) (repl : text -> option text)
    (s : text) : option text :=
  (fun ps => concat ps)
    <$> mapM (fun p => match p with Plain c => Some [c] | Span i => repl i end)
             (re_scan open close s).

End Regex.

(** ** The inline passes *)

(** [lambda match: match.group(1).replace('c', '').replace('C', '')] *)
Definition strip_c (inner : text) : text :=
  remove_char 67%N (remove_char 99%N inner).

Definition process_special_syntax (t : text) : option text :=
  t1 ← Regex.re_sub_try (str "[[") (str "]]") md5_hex t;
  Some (Regex.re_sub (str "((") (str "))") strip_c t1).

Definition parse_bold_text (t : text) : text :=
  let t1 := Regex.re_sub (str "**") (str "**")
              (fun inner => str "<b>" ++ inner ++ str "</b>") t in
  Regex.re_sub (str "__") (str "__")
    (fun inner => str "<em>" ++ inner ++ str "</em>") t1.

(** The two calls every textual payload goes through, in the order of the
    source. *)
Definition inline (t : text) : option text :=
  parse_bold_text <$> process_special_syntax t.

(** ** Output and exceptions

    A computation writes lines to the output file and then either
    returns a value or has raised. *)

Definition io (A : Type) : Type := (list text * option A)%type.

#[global] Instance io_ret : MRet io := fun A a => ([], Some a).
#[global] Instance io_bind : MBind io := fun A B f m =>
  match m with
  | (w, Some a) => let '(w', r) := f a in (w ++ w', r)
  | (w, None) => (w, None)
  end.

(** [html_file.write(line + '\n')] *)
Definition write (line : text) : io unit := ([line], Some tt).

(** The result of a call that may raise. *)
Definition call {A} (o : option A) : io A := ([], o).

(** The text of the output file. *)
Definition render (out : list text) : text :=
  concat (map (fun l => l ++ [newline]) out).

(** ** The block state machine *)

Record state := State {
  in_unordered_list : bool;
  in_ordered_list : bool;
  in_paragraph : bool
}.

Definition initial : state := State false false false.

Definition set_unordered (b : bool) (st : state) : state :=
  State b (in_ordered_list st) (in_paragraph st).
Definition set_ordered (b : bool) (st : state) : state :=
  State (in_unordered_list st) b (in_paragraph st).
Definition set_paragraph (b : bool) (st : state) : state :=
  State (in_unordered_list st) (in_ordered_list st) b.

(** The five branches of the loop body, each on the stripped line. *)

(** [if stripped_line.startswith('#')] *)
Definition heading_line (st : state) (stripped_line : text) : io state :=
  let heading_level := length (hd [] (split space stripped_line)) in
  let heading_text := strip (drop heading_level stripped_line) in
  st ← (if in_unordered_list st
        then write (str "</ul>");; mret (set_unordered false st)
        else mret st);
  st ← (if in_ordered_list st
        then write (str "</ol>");; mret (set_ordered false st)
        else mret st);
  st ← (if in_paragraph st
        then write (str "</p>");; mret (set_paragraph false st)
        else mret st);
  heading_text ← call (process_special_syntax heading_text);
  let heading_text := parse_bold_text heading_text in
  write (str "<h" ++ format_int heading_level ++ str ">" ++ heading_text
         ++ str "</h" ++ format_int heading_level ++ str ">");;
  mret st.

(** [elif stripped_line.startswith('- ')] *)
Definition unordered_item (st : state) (stripped_line : text) : io state :=
  let list_item_text := strip (drop 2 stripped_line) in
  st ← (if negb (in_unordered_list st) then
          st ← (if in_paragraph st
                then write (str "</p>");; mret (set_paragraph false st)
                else mret st);
          write (str "<ul>");;
          mret (set_unordered true st)
        else mret st);
  list_item_text ← call (process_special_syntax list_item_text);
  let list_item_text := parse_bold_text list_item_text in
  write (str "    <li>" ++ list_item_text ++ str "</li>");;
  mret st.

(** [elif stripped_line.startswith('* ')] *)
Definition ordered_item (st : state) (stripped_line : text) : io state :=
  let list_item_text := strip (drop 2 stripped_line) in
  st ← (if negb (in_ordered_list st) then
          st ← (if in_paragraph st
                then write (str "</p>");; mret (set_paragraph false st)
                else mret st);
          write (str "<ol>");;
          mret (set_ordered true st)
        else mret st);
  list_item_text ← call (process_special_syntax list_item_text);
  let list_item_text := parse_bold_text list_item_text in
  write (str "    <li>" ++ list_item_text ++ str "</li>");;
  mret st.

(** [elif stripped_line] *)
Definition paragraph_line (st : state) (stripped_line : text) : io state :=
  st ← (if negb (in_paragraph st) then
          st ← (if in_unordered_list st
                then write (str "</ul>");; mret (set_unordered false st)
                else mret st);
          st ← (if in_ordered_list st
                then write (str "</ol>");; mret (set_ordered false st)
                else mret st);
          write (str "<p>");;
          mret (set_paragraph true st)
        else
          write (str "    <br/>");; mret st);
  line_with_special_syntax ← call (process_special_syntax stripped_line);
  let line_with_bold := parse_bold_text line_with_special_syntax in
  write (str "    " ++ line_with_bold);;
  mret st.

(** [else] *)
Definition blank_line (st : state) : io state :=
  if in_paragraph st
  then write (str "</p>");; mret (set_paragraph false st)
  else mret st.

(** The body of the [for] loop. *)
Definition process_line (st : state) (line : text) : io state :=
  let stripped_line := strip line in
  if startswith (str "#") stripped_line then heading_line st stripped_line
  else if startswith (str "- ") stripped_line then unordered_item st stripped_line
  else if startswith (str "* ") stripped_line then ordered_item st stripped_line
  else if negb (bool_decide (stripped_line = [])) then paragraph_line st stripped_line
  else blank_line st.

(** The [for] loop over the lines of the input. *)
Fixpoint process_lines (st : state) (lines : list text) : io state :=
  match lines with
  | [] => mret st
  | line :: rest => st' ← process_line st line; process_lines st' rest
  end.

(** The closing tags written after the loop. *)
Definition flush (st : state) : io unit :=
  (if in_unordered_list st then write (str "</ul>") else mret tt);;
  (if in_ordered_list st then write (str "</ol>") else mret tt);;
  (if in_paragraph st then write (str "</p>") else mret tt).

(** The body of the [with] block. *)
Definition convert (lines : list text) : io unit :=
  st ← process_lines initial lines; flush st.

(** ** Files, the error stream and the driver

    The file system tells, for every path the program may be given, what
    the path names:
    - [File content]: a regular file, stored under this path, with its
      decoded text;
    - [Dir]: a directory;
    - [Alias target]: whatever [target] names, of which the path is
      another name (a link, or another spelling such as [./a.md] for
      [a.md]); two paths are names of one file when they resolve to the
      same path;
    - [Vacant]: nothing yet, but a regular file can be created there;
    - a path that is not bound names nothing and nothing can be created
      there (a missing parent directory, a parent that is a regular file,
      the empty path).
    Opening for reading needs a regular file.  Opening for writing
    truncates a regular file, creates one at a vacant path and raises in
    every other case.  Permissions, decoding and device errors are outside
    the model: the exceptions of the conversion are a failed [open] and the
    [UnicodeEncodeError] of the hash pass. *)

Inductive node :=
| File (content : text)
| Dir
| Alias (target : text)
| Vacant.

(** What the program prints to [sys.stderr]:
    [Usage] stands for the usage line, [Missing p] for [Missing] followed
    by the path, [Error] for [Error:] followed by the text of the caught
    exception. *)
Inductive message := Usage | Missing (path : text) | Error.

Record world := World {
  files : gmap text node;
  stderr : list message
}.

Definition print_err (m : message) (w : world) : world :=
  World (files w) (stderr w ++ [m]).

(** The path under which the file named by [path] is stored: aliases are
    followed, at most [n] of them. *)
Fixpoint follow (n : nat) (fs : gmap text node) (path : text) : text :=
  match n with
  | O => path
  | S n' =>
      match fs !! path with
      | Some (Alias target) => follow n' fs target
      | _ => path
      end
  end.

(** A chain of aliases that does not run in a circle is no longer than
    the number of bound paths; a chain that does ends at an alias, which
    cannot be opened. *)
Definition resolve (w : world) (path : text) : text :=
  follow (size (files w)) (files w) path.

(** [os.path.isfile(path)]: links are followed. *)
Definition isfile (w : world) (path : text) : bool :=
  match files w !! resolve w path with
  | Some (File _) => true
  | _ => false
  end.

(** Universal newlines: [\r\n] and [\r] are read as [\n]. *)
Fixpoint translate_newlines (s : text) : text :=
  match s with
  | [] => []
  | c :: s' =>
      if (c =? 13)%N then
        match s' with
        | d :: s'' => if (d =? newline)%N then newline :: translate_newlines s''
                      else newline :: translate_newlines s'
        | [] => [newline]
        end
      else c :: translate_newlines s'
  end.

(** The lines a text yields, each with its terminator. *)
Fixpoint split_lines (s : text) : list text :=
  match s with
  | [] => []
  | c :: s' =>
      if (c =? newline)%N then [c] :: split_lines s'
      else match split_lines s' with
           | l :: ls => (c :: l) :: ls
           | [] => [[c]]
           end
  end.

(** [for line in md_file] *)
Definition read_lines (content : text) : list text :=
  split_lines (translate_newlines content).

(** How a call ends: it returns, or [sys.exit(code)] was called. *)
Inductive outcome := Returned | Exited (code : Z).

Definition convert_markdown_to_html (markdown_file output_file : text)
    (w : world) : world * outcome :=
  let src := resolve w markdown_file in
  let dst := resolve w output_file in
  match files w !! src with
  | Some (File _) =>
      match files w !! dst with
      | Some (File _) | Some Vacant =>
          (* opening for writing truncates or creates the output file *)
          let fs := <[dst := File []]> (files w) in
          (* the lines are read after both files have been opened *)
          let content := match fs !! src with
                         | Some (File c) => c
                         | _ => []
                         end in
          let '(out, r) := convert (read_lines content) in
          let w' := World (<[dst := File (render out)]> fs) (stderr w) in
          match r with
          | Some _ => (w', Returned)
          | None => (print_err Error w', Exited 1)
          end
      | _ => (print_err Error w, Exited 1)
      end
  | _ => (print_err Error w, Exited 1)
  end.

(** [main], with [sys.argv] as [argv]; the result is the exit code. *)
Definition main (argv : list text) (w : world) : world * Z :=
  if (length argv <? 3)%nat then (print_err Usage w, 1%Z)
  else
    let markdown_file := nth 1 argv [] in
    let output_file := nth 2 argv [] in
    if negb (isfile w markdown_file) then
      (print_err (Missing markdown_file) w, 1%Z)
    else
      match convert_markdown_to_html markdown_file output_file w with
      | (w', Exited code) => (w', code)
      | (w', Returned) => (w', 0%Z)
      end.

(** * Notions used in the statements *)

(** ** Nesting of the block tags in the output *)

Inductive block := Ul | Ol | Par.

#[global] Instance block_eq_dec : EqDecision block.
Proof. solve_decision. Defined.

Definition opening_tag (l : text) : option block :=
  if bool_decide (l = str "<ul>") then Some Ul
  else if bool_decide (l = str "<ol>") then Some Ol
  else if bool_decide (l = str "<p>") then Some Par
  else None.

Definition closing_tag (l : text) : option block :=
  if bool_decide (l = str "</ul>") then Some Ul
  else if bool_decide (l = str "</ol>") then Some Ol
  else if bool_decide (l = str "</p>") then Some Par
  else None.

(** The block tags of [out] are balanced over the blocks still open in
    [stack]: a closing tag closes the block opened last, and nothing is
    left open at the end. *)
Fixpoint nested (stack : list block) (out : list text) : bool :=
  match out with
  | [] => bool_decide (stack = [])
  | l :: out' =>
      match opening_tag l, closing_tag l with
      | Some b, _ => nested (b :: stack) out'
      | None, Some b =>
          match stack with
          | top :: stack' => bool_decide (top = b) && nested stack' out'
          | [] => false
          end
      | None, None => nested stack out'
      end
  end.

Definition well_nested (out : list text) : bool := nested [] out.

(** At most one of the three flags is set. *)
Definition at_most_one (st : state) : bool :=
  match in_unordered_list st, in_ordered_list st, in_paragraph st with
  | true, true, _ | true, _, true | _, true, true => false
  | _, _, _ => true
  end.

(** ** Classification of a line *)

Inductive kind := Heading | UnorderedItem | OrderedItem | ParagraphLine | BlankLine.

(** The branch of the loop body a stripped line takes. *)
Definition classify (stripped_line : text) : kind :=
  if startswith (str "#") stripped_line then Heading
  else if startswith (str "- ") stripped_line then UnorderedItem
  else if startswith (str "* ") stripped_line then OrderedItem
  else if negb (bool_decide (stripped_line = [])) then ParagraphLine
  else BlankLine.

(** ** Headings *)

(** The number of [#] characters a text starts with. *)
Fixpoint leading_hashes (s : text) : nat :=
  match s with
  | [] => 0
  | c :: s' => if (c =? 35)%N then S (leading_hashes s') else 0
  end.

(** The closing tags for what [st] has open, in the order of the heading
    branch and of the final flush. *)
Definition closing_tags (st : state) : list text :=
  (if in_unordered_list st then [str "</ul>"] else [])
  ++ (if in_ordered_list st then [str "</ol>"] else [])
  ++ (if in_paragraph st then [str "</p>"] else []).

Definition heading_html (level : nat) (body : text) : text :=
  str "<h" ++ format_int level ++ str ">" ++ body
  ++ str "</h" ++ format_int level ++ str ">".

(** ** Runs of unordered items *)

Definition is_blank (line : text) : bool := bool_decide (strip line = []).

Definition is_unordered_item (line : text) : bool :=
  startswith (str "- ") (strip line).

(** The line written for an item line, when inline processing succeeds. *)
Definition item_html (line : text) : option text :=
  (fun body => str "    <li>" ++ body ++ str "</li>")
    <$> inline (strip (drop 2 (strip line))).

(** ** Lines of text

    The inline passes work on one stripped line read from a text file:
    it holds no newline, and its code points are Unicode scalar values
    (no surrogates), which [str.encode] accepts. *)

Definition is_scalar (c : char) : bool :=
  ((c <? 55296) || (57343 <? c) && (c <? 1114112))%N.

Definition is_line (t : text) : bool :=
  forallb (fun c => is_scalar c && negb (c =? newline)%N) t.

(** Every code point can be encoded. *)
Definition encodable (t : text) : bool := forallb is_scalar t.

(** The six characters the delimiters are made of do not occur. *)
Definition no_delimiter_char (t : text) : bool :=
  forallb (fun x => negb (existsb (N.eqb x) (str "[]()*_"))) t.

(** ** Substitution of spans, as the specification words it

    A span is an opening delimiter, a non-empty inner text and a closing
    delimiter.  Reading the text from left to right, the leftmost span is
    replaced, the shortest one that starts there; the text behind it is
    treated the same way; a character at which no span starts is kept. *)

Section Substitution.
Variables (open close : text) (repl : text -> option text).

Definition is_span (s inner rest : text) : Prop :=
  s = open ++ inner ++ close ++ rest /\ inner <> [].

Inductive substituted : text -> text -> Prop :=
| subst_end : substituted [] []
| subst_span s inner rest r out :
    is_span s inner rest ->
    (forall inner' rest', is_span s inner' rest' -> length inner <= length inner') ->
    repl inner = Some r ->
    substituted rest out ->
    substituted s (r ++ out)
| subst_keep c s out :
    (forall inner rest, ~ is_span (c :: s) inner rest) ->
    substituted s out ->
    substituted (c :: s) (c :: out).

End Substitution.

(** ** Empty delimiter pairs and the scan of a pass *)

(** The opening and the closing character of the four passes, in the
    order in which the passes run: each delimiter is its character
    twice. *)
Definition delimiter_chars : list (char * char) :=
  [(91, 93); (40, 41); (42, 42); (95, 95)]%N.

(** An opening delimiter directly followed by its closing delimiter. *)
Definition empty_pair (o c : char) : text := [o; o; c; c].

(** The text of the input a piece of the scan stands for. *)
Definition piece_source (open close : text) (p : Regex.piece) : text :=
  match p with
  | Regex.Plain x => [x]
  | Regex.Span inner => open ++ inner ++ close
  end.

(** [scan_arrives open close s tl]: scanning [s] from left to right, the
    pass looks for a match at the start of the suffix [tl] of [s]; no match
    found before reaches beyond that point. *)
Inductive scan_arrives (open close : text) : text -> text -> Prop :=
| arrives_here s : scan_arrives open close s s
| arrives_after_match s inner rest tl :
    Regex.match_at open close s = Some (inner, rest) ->
    scan_arrives open close rest tl ->
    scan_arrives open close s tl
| arrives_after_char x s tl :
    Regex.match_at open close (x :: s) = None ->
    scan_arrives open close s tl ->
    scan_arrives open close (x :: s) tl.

(** The closing delimiter stands in [s] behind one or more characters,
    none of which is a newline. *)
Definition closes_later (close s : text) : Prop :=
  exists inner rest,
    inner <> [] /\ (newline ∉ inner) /\ s = inner ++ close ++ rest.

(** ** Runs of ordered items and of paragraph lines *)

#[global] Instance kind_eq_dec : EqDecision kind.
Proof. solve_decision. Defined.

Definition is_ordered_item (line : text) : bool :=
  startswith (str "* ") (strip line).

Definition is_paragraph_line (line : text) : bool :=
  bool_decide (classify (strip line) = ParagraphLine).

(** The line written for the text of a paragraph line, when inline
    processing succeeds. *)
Definition paragraph_html (line : text) : option text :=
  (fun body => str "    " ++ body) <$> inline (strip line).

(** The closing tags of the lists [st] has open, in the order of the
    paragraph branch. *)
Definition closing_list_tags (st : state) : list text :=
  (if in_unordered_list st then [str "</ul>"] else [])
  ++ (if in_ordered_list st then [str "</ol>"] else []).

(** The lines of a paragraph: the first text, then a break before every
    further text. *)
Definition paragraph_body (texts : list text) : list text :=
  match texts with
  | [] => []
  | t :: ts => t :: flat_map (fun t' => [str "    <br/>"; t']) ts
  end.

(** The blocks [st] has open, innermost first when only one kind of list
    is in use. *)
Definition open_blocks (st : state) : list block :=
  (if in_paragraph st then [Par] else [])
  ++ (if in_ordered_list st then [Ol] else [])
  ++ (if in_unordered_list st then [Ul] else []).

(** ** The replacements of the emphasis pass *)

(** The template [<b>\1</b>]. *)
Definition bold_html (inner : text) : text := str "<b>" ++ inner ++ str "</b>".

(** The template [<em>\1</em>]. *)
Definition em_html (inner : text) : text := str "<em>" ++ inner ++ str "</em>".

(** * Checks by evaluation *)

Example md5_empty : md5_hex (str "") = Some (str "d41d8cd98f00b204e9800998ecf8427e").
Proof. vm_compute. reflexivity. Qed.

Example md5_abc : md5_hex (str "abc") = Some (str "900150983cd24fb0d6963f7d28e17f72").
Proof. vm_compute. reflexivity. Qed.

Example md5_x : md5_hex (str "x") = Some (str "9dd4e461268c8034f5c8564e155c67a6").
Proof. vm_compute. reflexivity. Qed.

Example md5_long :
  md5_hex (str "12345678901234567890123456789012345678901234567890123456789012345678901234567890")
  = Some (str "57edf4a22be3c955ac49da2e2107b67a").
Proof. vm_compute. reflexivity. Qed.

Example utf8_examples :
  Utf8.encode [233%N] = Some [195; 169]%N
  /\ Utf8.encode [8364%N] = Some [226; 130; 172]%N
  /\ Utf8.encode [128512%N] = Some [240; 159; 152; 128]%N
  /\ Utf8.encode [55296%N] = None.
Proof. repeat split; vm_compute; reflexivity. Qed.

(** The end-to-end example: headings, a list, a paragraph and both inline
    passes. *)
Example convert_example :
  convert [str "# Title" ++ [newline];
           str "- item **one**" ++ [newline];
           str "- item __two__" ++ [newline];
           str "plain text [[x]]" ++ [newline]]
  = ([str "<h1>Title</h1>";
      str "<ul>";
      str "    <li>item <b>one</b></li>";
      str "    <li>item <em>two</em></li>";
      str "</ul>";
      str "<p>";
      str "    plain text 9dd4e461268c8034f5c8564e155c67a6";
      str "</p>"], Some tt).
Proof. vm_compute. reflexivity. Qed.

(** The driver on four file systems: a conversion into a vacant path; the
    output path as another name of the input file, which is emptied before
    it is read; an output path below a directory that does not exist; a
    directory as output path. *)
Example main_examples :
  main [str "./markdown2html.py"; str "a.md"; str "a.html"]
       (World {[ str "a.md" := File (str "- x"); str "a.html" := Vacant ]} [])
  = (World {[ str "a.md" := File (str "- x");
              str "a.html" := File (render [str "<ul>"; str "    <li>x</li>";
                                            str "</ul>"]) ]} [], 0%Z)
  /\ main [str "./markdown2html.py"; str "a.md"; str "./a.md"]
          (World {[ str "a.md" := File (str "- x");
                    str "./a.md" := Alias (str "a.md") ]} [])
     = (World {[ str "a.md" := File [];
                 str "./a.md" := Alias (str "a.md") ]} [], 0%Z)
  /\ main [str "./markdown2html.py"; str "a.md"; str "nodir/a.html"]
          (World {[ str "a.md" := File (str "- x") ]} [])
     = (World {[ str "a.md" := File (str "- x") ]} [Error], 1%Z)
  /\ main [str "./markdown2html.py"; str "a.md"; str "docs"]
          (World {[ str "a.md" := File (str "- x"); str "docs" := Dir ]} [])
     = (World {[ str "a.md" := File (str "- x"); str "docs" := Dir ]} [Error],
        1%Z).
Proof. repeat split; vm_compute; reflexivity. Qed.

(** * Properties *)

(** ** The regular-expression scan *)

Module RegexFacts.
Import Regex.

(** Membership goals over [::] and [++]. *)
Ltac notin :=
  repeat match goal with
         | H : _ ∉ _ :: _ |- _ => apply not_elem_of_cons in H as [? ?]
         | H : _ ∉ _ ++ _ |- _ => apply not_elem_of_app in H as [? ?]
         end;
  rewrite ?not_elem_of_cons, ?not_elem_of_app, ?elem_of_nil;
  try (intuition congruence).

Lemma startswith_app p r : startswith p (p ++ r) = true.
Proof. induction p as [|a p IH]; simpl; [done|]. by rewrite N.eqb_refl. Qed.

Lemma startswith_true p s :
  startswith p s = true -> s = p ++ drop (length p) s.
Proof.
  revert s. induction p as [|a p IH]; intros [|b s]; simpl; try done.
  intros [Hab Hps]%andb_prop. apply N.eqb_eq in Hab as ->.
  f_equal. by apply IH.
Qed.

Lemma startswith_head_ne a p b s : a <> b -> startswith (a :: p) (b :: s) = false.
Proof. intros Hne. simpl. apply N.eqb_neq in Hne. by rewrite Hne. Qed.

Lemma lit_Some p s r : lit p s = Some r <-> s = p ++ r.
Proof.
  unfold lit. split.
  - destruct (startswith p s) eqn:E; [|done].
    intros [= <-]. by apply startswith_true.
  - intros ->. rewrite startswith_app. f_equal.
    by rewrite drop_app_length.
Qed.

Lemma lit_None p s : lit p s = None <-> startswith p s = false.
Proof. unfold lit. by destruct (startswith p s). Qed.

(** What a successful [(.+?)CLOSE] has matched: group 1 is not empty,
    holds no newline, is followed by the closing delimiter, and no
    shorter non-empty group is. *)
Lemma lazy_plus_Some close s inner rest :
  lazy_plus close s = Some (inner, rest) ->
  s = inner ++ close ++ rest /\ inner <> [] /\ (newline ∉ inner) /\
  (forall inner' rest', inner' <> [] -> s = inner' ++ close ++ rest' ->
                        length inner <= length inner').
Proof.
  revert inner. induction s as [|c s IH]; simpl; [done|].
  intros inner. destruct (c =? newline)%N eqn:Hc; [done|].
  apply N.eqb_neq in Hc.
  destruct (lit close s) as [r|] eqn:Hl.
  - intros [= <- <-]. apply lit_Some in Hl as ->.
    repeat split; [done|notin|].
    intros [|? ?] ? ? ?; simpl; [done|lia].
  - destruct (lazy_plus close s) as [[i r]|] eqn:Hr; [|done].
    intros [= <- <-]. destruct (IH _ eq_refl) as (Hs & Hi & Hn & Hmin).
    repeat split; [by rewrite Hs at 1|done|notin|].
    intros [|c' [|c'' i']] rest' Hne Heq; [done| |].
    + assert (s = close ++ rest') as Hs' by (simpl in Heq; congruence).
      apply lit_Some in Hs'. congruence.
    + assert (s = (c'' :: i') ++ close ++ rest') as Hs'
        by (simpl in Heq; simpl; congruence).
      specialize (Hmin (c'' :: i') rest' ltac:(done) Hs'). simpl in *. lia.
Qed.

(** When [(.+?)CLOSE] fails on a text without newline, no non-empty group
    followed by the closing delimiter starts the text. *)
Lemma lazy_plus_None close s :
  lazy_plus close s = None -> newline ∉ s ->
  forall inner rest, inner <> [] -> s <> inner ++ close ++ rest.
Proof.
  induction s as [|c s IH]; simpl.
  - intros _ _ [|? ?] ? ?; done.
  - intros Hl Hn. destruct (c =? newline)%N eqn:Hc.
    { apply N.eqb_eq in Hc. notin. }
    destruct (lit close s) as [r|] eqn:Hlit; [done|].
    destruct (lazy_plus close s) as [[i r]|] eqn:Hr; [done|].
    intros [|c' [|c'' i']] rest Hne Heq; [done| |].
    + assert (s = close ++ rest) as Hs' by (simpl in Heq; congruence).
      apply lit_Some in Hs'. congruence.
    + assert (s = (c'' :: i') ++ close ++ rest) as Hs'
        by (simpl in Heq; simpl; congruence).
      refine (IH eq_refl _ (c'' :: i') rest _ Hs'); [notin|done].
Qed.

Lemma match_at_Some open close s inner rest :
  match_at open close s = Some (inner, rest) ->
  s = open ++ inner ++ close ++ rest /\ inner <> [] /\ (newline ∉ inner) /\
  (forall inner' rest', inner' <> [] -> s = open ++ inner' ++ close ++ rest' ->
                        length inner <= length inner').
Proof.
  unfold match_at. destruct (lit open s) as [s1|] eqn:Hl; [|done].
  apply lit_Some in Hl as ->.
  intros (-> & Hne & Hn & Hmin)%lazy_plus_Some.
  repeat split; try done.
  intros inner' rest' Hne' Heq. apply app_inv_head in Heq. eauto.
Qed.

Lemma match_at_None open close s :
  match_at open close s = None -> newline ∉ s ->
  forall inner rest, inner <> [] -> s <> open ++ inner ++ close ++ rest.
Proof.
  unfold match_at. destruct (lit open s) as [s1|] eqn:Hl.
  - apply lit_Some in Hl as ->. intros Hp Hn inner rest Hne Heq.
    apply app_inv_head in Heq.
    eapply lazy_plus_None; [exact Hp|notin|exact Hne|exact Heq].
  - intros _ _ inner rest _ ->.
    apply lit_None in Hl. by rewrite startswith_app in Hl.
Qed.

(** A match consumes at least one character. *)
Lemma match_at_length open close s inner rest :
  match_at open close s = Some (inner, rest) -> length rest < length s.
Proof.
  intros (-> & Hne & _)%match_at_Some. rewrite !length_app.
  destruct inner; [done|]. simpl. lia.
Qed.

(** A match needs the opening delimiter. *)
Lemma match_at_no_open open close s :
  startswith open s = false -> match_at open close s = None.
Proof. intros H. unfold match_at, lit. by rewrite H. Qed.

(** The unfolding equations of the scan. *)
Lemma re_scan_nil open close : re_scan open close [] = [].
Proof. by simp re_scan. Qed.

Lemma re_scan_cons open close c s' :
  re_scan open close (c :: s') =
  match match_at open close (c :: s') with
  | Some (inner, rest) => Span inner :: re_scan open close rest
  | None => Plain c :: re_scan open close s'
  end.
Proof.
  simp re_scan. unfold inspect.
  enough (G : forall o (e : match_at open close (c :: s') = o),
    re_scan_unfold_clause_2 open close c s' (exist _ o e) =
    match o with
    | Some (inner, rest) => Span inner :: re_scan open close rest
    | None => Plain c :: re_scan open close s'
    end) by apply G.
  intros [[inner rest]|] e; simp re_scan; reflexivity.
Qed.

Lemma re_sub_nil open close f : re_sub open close f [] = [].
Proof. unfold re_sub. by rewrite re_scan_nil. Qed.

Lemma re_sub_cons open close f c s' :
  re_sub open close f (c :: s') =
  match match_at open close (c :: s') with
  | Some (inner, rest) => f inner ++ re_sub open close f rest
  | None => c :: re_sub open close f s'
  end.
Proof.
  unfold re_sub. rewrite re_scan_cons.
  by destruct (match_at open close (c :: s')) as [[inner rest]|].
Qed.

Lemma re_sub_try_nil open close f : re_sub_try open close f [] = Some [].
Proof. unfold re_sub_try. by rewrite re_scan_nil. Qed.

Lemma re_sub_try_cons open close f c s' :
  re_sub_try open close f (c :: s') =
  match match_at open close (c :: s') with
  | Some (inner, rest) =>
      r ← f inner; out ← re_sub_try open close f rest; Some (r ++ out)
  | None => out ← re_sub_try open close f s'; Some (c :: out)
  end.
Proof.
  unfold re_sub_try. rewrite re_scan_cons.
  destruct (match_at open close (c :: s')) as [[inner rest]|]; simpl.
  - destruct (f inner); simpl; [|done].
    by destruct (mapM _ (re_scan open close rest)).
  - by destruct (mapM _ (re_scan open close s')).
Qed.

(** Induction along the scan: after a match it goes on behind the match,
    otherwise one character further. *)
Lemma scan_ind open close (P : text -> Prop) :
  P [] ->
  (forall c s inner rest,
      match_at open close (c :: s) = Some (inner, rest) -> P rest -> P (c :: s)) ->
  (forall c s, match_at open close (c :: s) = None -> P s -> P (c :: s)) ->
  forall s, P s.
Proof.
  intros Hnil Hspan Hskip s.
  remember (length s) as n eqn:Hn. revert s Hn.
  induction n as [n IH] using lt_wf_ind. intros [|c s] Hn; [done|].
  destruct (match_at open close (c :: s)) as [[inner rest]|] eqn:Hm.
  - eapply Hspan; [exact Hm|]. apply match_at_length in Hm.
    eapply IH; [|done]. lia.
  - apply Hskip; [done|]. eapply IH; [|done]. simpl in Hn. lia.
Qed.

(** A callback that cannot fail. *)
Lemma re_sub_try_total open close f s :
  re_sub_try open close (fun i => Some (f i)) s = Some (re_sub open close f s).
Proof.
  induction s as [|c s inner rest Hm IH|c s Hm IH] using (scan_ind open close).
  - by rewrite re_sub_try_nil, re_sub_nil.
  - rewrite re_sub_try_cons, re_sub_cons, Hm. simpl. by rewrite IH.
  - rewrite re_sub_try_cons, re_sub_cons, Hm. simpl. by rewrite IH.
Qed.

(** A text in which the opening delimiter does not occur is left as it
    is. *)
Lemma contains_cons_false d c s :
  contains d (c :: s) = false -> startswith d (c :: s) = false /\ contains d s = false.
Proof. simpl. by intros [? ?]%orb_false_elim. Qed.

Lemma re_sub_no_open open close f s :
  contains open s = false -> re_sub open close f s = s.
Proof.
  induction s as [|c s IH]; intros Hc.
  - apply re_sub_nil.
  - apply contains_cons_false in Hc as [Hs Hc].
    rewrite re_sub_cons, match_at_no_open by done. by rewrite IH.
Qed.

Lemma re_sub_try_no_open open close f s :
  contains open s = false -> re_sub_try open close f s = Some s.
Proof.
  induction s as [|c s IH]; intros Hc.
  - apply re_sub_try_nil.
  - apply contains_cons_false in Hc as [Hs Hc].
    rewrite re_sub_try_cons, match_at_no_open by done. by rewrite IH.
Qed.

End RegexFacts.

Import Regex RegexFacts.

(** [contains] is the substring test. *)
Lemma contains_spec d s :
  contains d s = true <-> exists pre post, s = pre ++ d ++ post.
Proof.
  split.
  - induction s as [|c s IH]; simpl.
    + rewrite orb_false_r. intros H%startswith_true. by exists [], (drop (length d) []).
    + intros [H|H]%orb_prop.
      * apply startswith_true in H. by exists [], (drop (length d) (c :: s)).
      * destruct (IH H) as (pre & post & ->). by exists (c :: pre), post.
  - intros (pre & post & ->). induction pre as [|c pre IH]; simpl.
    + assert (startswith d (d ++ post) = true) as H by apply startswith_app.
      destruct (d ++ post); simpl; by rewrite H.
    + rewrite IH. apply orb_true_r.
Qed.

(** ** Text without delimiters *)

(** C9. A text in which none of [[[], [((], [**] and [__] occurs goes
    through the hash/strip pass and the emphasis pass unchanged. *)
Theorem inline_identity_without_delimiters (t : text) :
  contains (str "[[") t = false ->
  contains (str "((") t = false ->
  contains (str "**") t = false ->
  contains (str "__") t = false ->
  process_special_syntax t = Some t /\ parse_bold_text t = t /\ inline t = Some t.
Proof.
  intros Hh Hs Hb He.
  assert (process_special_syntax t = Some t) as Hp.
  { unfold process_special_syntax.
    rewrite re_sub_try_no_open by done. simpl.
    by rewrite re_sub_no_open. }
  assert (parse_bold_text t = t) as Hq.
  { unfold parse_bold_text. cbv zeta.
    rewrite (re_sub_no_open (str "**")) by done. by apply re_sub_no_open. }
  unfold inline. rewrite Hp. simpl. by rewrite Hq.
Qed.

Lemma inline_identity_without_delimiters_witness :
  inline (str "plain [text] with (single) * and _ marks") =
  Some (str "plain [text] with (single) * and _ marks").
Proof.
  refine (proj2 (proj2 (inline_identity_without_delimiters
           (str "plain [text] with (single) * and _ marks") _ _ _ _)));
    vm_compute; reflexivity.
Defined.

(** ** Span substitution and [re.sub] *)

Section SubstitutionFacts.
Variables (open close : text) (repl : text -> option text).

Local Abbreviation is_span := (is_span open close).
Local Abbreviation substituted := (substituted open close repl).

Lemma match_at_is_span s inner rest :
  match_at open close s = Some (inner, rest) ->
  is_span s inner rest /\
  forall inner' rest', is_span s inner' rest' -> length inner <= length inner'.
Proof.
  intros (Hs & Hne & _ & Hmin)%match_at_Some. split; [done|].
  intros inner' rest' [Hs' Hne']. eauto.
Qed.

Lemma no_match_no_span s :
  match_at open close s = None -> newline ∉ s ->
  forall inner rest, ~ is_span s inner rest.
Proof.
  intros Hm Hn inner rest [Hs Hne]. by eapply match_at_None.
Qed.

(** On a text without newline the shortest span at the head is the
    match of the pattern. *)
Lemma shortest_span_match s inner rest :
  newline ∉ s ->
  is_span s inner rest ->
  (forall inner' rest', is_span s inner' rest' -> length inner <= length inner') ->
  match_at open close s = Some (inner, rest).
Proof.
  intros Hn Hsp Hmin.
  destruct (match_at open close s) as [[i r]|] eqn:Hm.
  - destruct (match_at_is_span _ _ _ Hm) as [[Hs Hi] Hmin'].
    destruct Hsp as [Hs' Hne].
    assert (length i = length inner) as Hlen.
    { apply Nat.le_antisymm; [apply (Hmin' inner rest)|apply (Hmin i r)]; done. }
    rewrite Hs' in Hs. apply app_inv_head in Hs.
    apply app_inj_1 in Hs as [-> Hs]; [|done].
    apply app_inv_head in Hs as ->. done.
  - exfalso. by eapply no_match_no_span.
Qed.

Lemma newline_suffix s inner rest :
  newline ∉ s -> s = open ++ inner ++ close ++ rest -> newline ∉ rest.
Proof. intros Hn ->. notin. Qed.

(** On a text without newline, [re.sub] computes the substitution. *)
Lemma substituted_re_sub_try s out :
  newline ∉ s ->
  substituted s out <-> re_sub_try open close repl s = Some out.
Proof.
  intros Hn. split.
  - intros Hsub. induction Hsub as [|s inner rest r out Hsp Hmin Hr Hsub IH
                                     |c s out Hno Hsub IH].
    + apply re_sub_try_nil.
    + pose proof (shortest_span_match _ _ _ Hn Hsp Hmin) as Hm.
      destruct s as [|c s'].
      { destruct Hsp as [Hs Hne]. by destruct open, inner. }
      rewrite re_sub_try_cons, Hm. simpl. rewrite Hr. simpl.
      rewrite IH; [done|]. destruct Hsp as [Hs _].
      by eapply newline_suffix.
    + rewrite re_sub_try_cons.
      destruct (match_at open close (c :: s)) as [[i r]|] eqn:Hm.
      { apply match_at_is_span in Hm as [Hsp _]. by destruct (Hno i r). }
      rewrite IH; [done|]. notin.
  - revert out Hn.
    induction s as [|c s inner rest Hm IH|c s Hm IH] using (scan_ind open close);
      intros out Hn.
    + rewrite re_sub_try_nil. intros [= <-]. constructor.
    + rewrite re_sub_try_cons, Hm. simpl.
      destruct (repl inner) as [r|] eqn:Hr; simpl; [|done].
      destruct (re_sub_try open close repl rest) as [o|] eqn:Ho; simpl; [|done].
      intros [= <-]. destruct (match_at_is_span _ _ _ Hm) as [Hsp Hmin].
      eapply subst_span; eauto. apply IH; [|done].
      destruct Hsp as [Hs _]. by eapply newline_suffix.
    + rewrite re_sub_try_cons, Hm. simpl.
      destruct (re_sub_try open close repl s) as [o|] eqn:Ho; simpl; [|done].
      intros [= <-]. apply subst_keep.
      * by apply no_match_no_span.
      * apply IH; [notin|done].
Qed.

End SubstitutionFacts.

(** ** Lines of text *)

Lemma is_line_cons c t :
  is_line (c :: t) = true <->
  is_scalar c = true /\ c <> newline /\ is_line t = true.
Proof.
  unfold is_line. simpl. rewrite !andb_true_iff, negb_true_iff, N.eqb_neq. tauto.
Qed.

Lemma is_line_app t u :
  is_line (t ++ u) = true <-> is_line t = true /\ is_line u = true.
Proof. unfold is_line. by rewrite forallb_app, andb_true_iff. Qed.


Lemma encode_char_scalar c : is_scalar c = true -> is_Some (Utf8.encode_char c).
Proof.
  unfold is_scalar, Utf8.encode_char. intros H.
  destruct (c <? 128)%N; [done|]. destruct (c <? 2048)%N; [done|].
  destruct (55296 <=? c)%N eqn:E1, (c <=? 57343)%N eqn:E2; simpl;
    destruct (c <? 65536)%N eqn:E3; try done;
    destruct (c <? 1114112)%N eqn:E4; try done;
    exfalso; revert H;
    rewrite orb_true_iff, andb_true_iff, !N.ltb_lt;
    rewrite ?N.leb_le, ?N.leb_gt, ?N.ltb_lt, ?N.ltb_ge in *; lia.
Qed.


Lemma encode_encodable t : encodable t = true -> is_Some (Utf8.encode t).
Proof.
  induction t as [|c t IH]; [done|]. simpl.
  intros [Hc Ht]%andb_prop.
  destruct (encode_char_scalar c Hc) as [b ->].
  by destruct (IH Ht) as [bs ->].
Qed.

Lemma md5_hex_encodable t : encodable t = true -> is_Some (md5_hex t).
Proof.
  intros [bs Hbs]%encode_encodable. unfold md5_hex. rewrite Hbs. done.
Qed.

(** A digest holds no newline. *)
Lemma hex_no_newline bs : newline ∉ MD5.hex bs.
Proof.
  assert (forall d, MD5.hex_digit d <> newline) as Hd.
  { intros d. unfold MD5.hex_digit, newline. destruct (d <? 10)%N; lia. }
  unfold MD5.hex. induction bs as [|b bs IH]; simpl; [apply not_elem_of_nil|].
  rewrite !not_elem_of_cons. repeat split; auto.
Qed.

Lemma md5_hex_no_newline t r : md5_hex t = Some r -> newline ∉ r.
Proof.
  unfold md5_hex. destruct (Utf8.encode t); simpl; [|done].
  intros [= <-]. apply hex_no_newline.
Qed.

Section SubstitutionResult.
Variables (open close : text) (repl : text -> option text).

(** The callback is applied to parts of the text only, so the
    substitution succeeds when the callback succeeds on such parts. *)
Lemma re_sub_try_forallb (ok : char -> bool) (s : text) :
  (forall i, forallb ok i = true -> is_Some (repl i)) ->
  forallb ok s = true -> is_Some (re_sub_try open close repl s).
Proof.
  intros Hrepl.
  induction s as [|c s inner rest Hm IH|c s Hm IH] using (scan_ind open close);
    intros Hl.
  - by rewrite re_sub_try_nil.
  - rewrite re_sub_try_cons, Hm. simpl.
    apply match_at_Some in Hm as (Hs & _). rewrite Hs in Hl.
    rewrite !forallb_app, !andb_true_iff in Hl.
    destruct Hl as (_ & Hi & _ & Hl).
    destruct (Hrepl _ Hi) as [r ->]. simpl.
    by destruct (IH Hl) as [o ->].
  - rewrite re_sub_try_cons, Hm. simpl.
    simpl in Hl. apply andb_prop in Hl as [_ Hl].
    by destruct (IH Hl) as [o ->].
Qed.

(** Replacements without newline keep a text free of newlines. *)
Lemma re_sub_try_no_newline s out :
  (forall i r, repl i = Some r -> newline ∉ r) ->
  newline ∉ s -> re_sub_try open close repl s = Some out -> newline ∉ out.
Proof.
  intros Hrepl. revert out.
  induction s as [|c s inner rest Hm IH|c s Hm IH] using (scan_ind open close);
    intros out Hn.
  - rewrite re_sub_try_nil. intros [= <-]. apply not_elem_of_nil.
  - rewrite re_sub_try_cons, Hm. simpl.
    destruct (repl inner) as [r|] eqn:Hr; simpl; [|done].
    destruct (re_sub_try open close repl rest) as [o|] eqn:Ho; simpl; [|done].
    intros [= <-]. apply match_at_Some in Hm as (Hs & _).
    apply not_elem_of_app. split; [by eapply Hrepl|].
    apply IH; [|done]. by eapply newline_suffix.
  - rewrite re_sub_try_cons, Hm. simpl.
    destruct (re_sub_try open close repl s) as [o|] eqn:Ho; simpl; [|done].
    intros [= <-]. apply not_elem_of_cons in Hn as [Hc Hn].
    apply not_elem_of_cons. split; [done|]. by apply IH.
Qed.

End SubstitutionResult.


(** ** What the program passes to the inline passes *)

Lemma lstrip_subset x t : x ∈ lstrip t -> x ∈ t.
Proof.
  induction t as [|c t IH]; [done|]. simpl.
  destruct (is_space c); [|done]. intros H. apply elem_of_cons. auto.
Qed.

Lemma elem_of_rev (x : char) t : x ∈ rev t <-> x ∈ t.
Proof. rewrite !list_elem_of_In. symmetry. apply in_rev. Qed.

Lemma strip_subset x t : x ∈ strip t -> x ∈ t.
Proof.
  unfold strip, rstrip. rewrite elem_of_rev.
  intros H%lstrip_subset. rewrite elem_of_rev in H.
  by apply lstrip_subset.
Qed.

Lemma lstrip_app_newline body :
  newline ∉ body ->
  lstrip (body ++ [newline]) = [] \/
  exists body', (newline ∉ body') /\ lstrip (body ++ [newline]) = body' ++ [newline].
Proof.
  induction body as [|c body IH]; [by left|].
  intros [Hc Hb]%not_elem_of_cons. simpl. destruct (is_space c); [auto|].
  right. exists (c :: body). split; [|done].
  apply not_elem_of_cons. done.
Qed.

(** A line ends in at most one newline; stripping removes it. *)
Lemma strip_line_no_newline body :
  newline ∉ body ->
  (newline ∉ strip body) /\ (newline ∉ strip (body ++ [newline])).
Proof.
  intros Hb. split.
  - intros H%strip_subset. done.
  - unfold strip, rstrip. rewrite elem_of_rev.
    destruct (lstrip_app_newline body Hb) as [->|(body' & Hb' & ->)];
      [apply not_elem_of_nil|].
    rewrite rev_app_distr. simpl.
    intros H%lstrip_subset. rewrite elem_of_rev in H. done.
Qed.

Lemma split_lines_shape s l :
  l ∈ split_lines s ->
  exists body, (newline ∉ body) /\ (l = body \/ l = body ++ [newline]).
Proof.
  revert l. induction s as [|c s IH]; intros l; simpl; [by intros ?%elem_of_nil|].
  destruct (c =? newline)%N eqn:Hc.
  - apply N.eqb_eq in Hc as ->.
    intros [->|H]%elem_of_cons; [|auto].
    exists []. split; [apply not_elem_of_nil|by right].
  - apply N.eqb_neq in Hc. destruct (split_lines s) as [|l0 ls] eqn:Hs.
    + intros ->%list_elem_of_singleton. exists [c]. split; [|by left].
      apply not_elem_of_cons. split; [done|apply not_elem_of_nil].
    + intros [->|H]%elem_of_cons.
      * destruct (IH l0) as (body & Hb & Hl); [apply elem_of_cons; auto|].
        exists (c :: body). split.
        -- apply not_elem_of_cons. done.
        -- destruct Hl as [-> | ->]; auto.
      * apply IH. apply elem_of_cons. auto.
Qed.

(** The stripped form of a line read from the input holds no newline, and
    neither does any part of it. *)
Lemma read_line_stripped content l :
  l ∈ read_lines content -> newline ∉ strip l.
Proof.
  intros (body & Hb & [-> | ->])%split_lines_shape;
    by apply strip_line_no_newline.
Qed.

Lemma encodable_elem t : encodable t = true <-> forall x, x ∈ t -> is_scalar x = true.
Proof.
  unfold encodable. rewrite forallb_forall.
  split; intros H x Hx; apply H; by apply list_elem_of_In.
Qed.

Lemma is_line_elem t : is_line t = true <-> encodable t = true /\ newline ∉ t.
Proof.
  induction t as [|c t IH].
  - split; [intros _; split; [done|apply not_elem_of_nil]|done].
  - rewrite is_line_cons, IH, not_elem_of_cons. simpl.
    rewrite andb_true_iff. intuition congruence.
Qed.

Lemma translate_newlines_cons c s :
  translate_newlines (c :: s) =
  if (c =? 13)%N then
    newline :: translate_newlines
                 match s with
                 | d :: s'' => if (d =? newline)%N then s'' else s
                 | [] => []
                 end
  else c :: translate_newlines s.
Proof.
  simpl. destruct (c =? 13)%N; [|done].
  destruct s as [|d s'']; [done|]. by destruct (d =? newline)%N.
Qed.

Lemma translate_newlines_elem x s :
  x ∈ translate_newlines s -> x ∈ s \/ x = newline.
Proof.
  revert x. induction s as [s IH] using (induction_ltof1 _ (@length char)).
  unfold ltof in IH. intros x. destruct s as [|c s].
  { by intros ?%elem_of_nil. }
  rewrite translate_newlines_cons. destruct (c =? 13)%N.
  - intros [->|H]%elem_of_cons; [by right|].
    destruct s as [|d s'']; [by apply elem_of_nil in H|].
    destruct (d =? newline)%N.
    + apply IH in H as [H| ->]; [|by right|simpl; lia].
      left. rewrite !elem_of_cons. auto.
    + apply IH in H as [H| ->]; [|by right|simpl; lia].
      left. rewrite elem_of_cons. auto.
  - intros [->|H]%elem_of_cons; [left; apply elem_of_cons; auto|].
    apply IH in H as [H| ->]; [|by right|simpl; lia].
    left. rewrite elem_of_cons. auto.
Qed.

Lemma split_lines_elem x l s : l ∈ split_lines s -> x ∈ l -> x ∈ s.
Proof.
  revert l. induction s as [|c s IH]; intros l; simpl; [by intros ?%elem_of_nil|].
  destruct (c =? newline)%N.
  - intros [->|H]%elem_of_cons.
    + intros ->%list_elem_of_singleton. apply elem_of_cons. auto.
    + intros Hx. apply elem_of_cons. right. eauto.
  - destruct (split_lines s) as [|l0 ls] eqn:Hs.
    + intros ->%list_elem_of_singleton ->%list_elem_of_singleton.
      apply elem_of_cons. auto.
    + intros [->|H]%elem_of_cons.
      * intros [->|Hx]%elem_of_cons; apply elem_of_cons; [auto|].
        right. apply (IH l0); [apply elem_of_cons; auto|done].
      * intros Hx. apply elem_of_cons. right.
        apply (IH l); [apply elem_of_cons; auto|done].
Qed.

(** Every text the loop body hands to the inline passes is a line in the
    sense of [is_line], when the input file holds scalar values only: the
    stripped line itself and what is left of it behind the heading token
    or the list marker. *)
Lemma inline_arguments_are_lines content l n :
  encodable content = true ->
  l ∈ read_lines content ->
  is_line (strip l) = true /\ is_line (strip (drop n (strip l))) = true.
Proof.
  intros Hc Hl. pose proof (read_line_stripped _ _ Hl) as Hn.
  assert (encodable (strip l) = true) as He.
  { apply encodable_elem. intros x Hx%strip_subset.
    apply (split_lines_elem _ _ _ Hl) in Hx.
    apply translate_newlines_elem in Hx as [Hx| ->]; [|done].
    by apply (proj1 (encodable_elem content) Hc). }
  split; apply is_line_elem; split; try done.
  - apply encodable_elem. intros x Hx%strip_subset.
    apply (proj1 (encodable_elem _) He). by eapply subseteq_drop.
  - intros Hx%strip_subset. apply Hn. by eapply subseteq_drop.
Qed.

(** ** The hash/strip pass *)



(** ** Delimiter pairs with nothing between them *)

(** No match has an empty group 1, so no callback or template is ever
    applied to the empty text. *)
Lemma re_scan_no_empty_span open close s : Span [] ∉ re_scan open close s.
Proof.
  induction s as [|c s inner rest Hm IH|c s Hm IH] using (scan_ind open close).
  - rewrite re_scan_nil. apply not_elem_of_nil.
  - rewrite re_scan_cons, Hm. apply not_elem_of_cons. split; [|done].
    apply match_at_Some in Hm as (_ & Hne & _). congruence.
  - rewrite re_scan_cons, Hm. apply not_elem_of_cons. split; [done|done].
Qed.

Lemma contains_absent x p s : x ∉ s -> contains (x :: p) s = false.
Proof.
  induction s as [|c s IH]; [done|].
  intros [Hx Hs]%not_elem_of_cons.
  cbn [contains]. rewrite IH by done. rewrite startswith_head_ne by done. done.
Qed.

(** A scan that finds no match leaves the text as it is, whatever the
    replacement. *)
Lemma re_sub_plain open close f s :
  re_scan open close s = map Plain s -> re_sub open close f s = s.
Proof.
  unfold re_sub. intros ->. induction s as [|c s IH]; [done|].
  simpl. by rewrite IH.
Qed.

Lemma mapM_plain (g : piece -> option text) (s : text) :
  (forall c, g (Plain c) = Some [c]) ->
  mapM g (map Plain s) = Some (map (fun c => [c]) s).
Proof.
  intros Hg. induction s as [|c s IH]; [done|].
  cbn. rewrite Hg. cbn. rewrite IH. done.
Qed.

Lemma re_sub_try_plain open close f s :
  re_scan open close s = map Plain s -> re_sub_try open close f s = Some s.
Proof.
  unfold re_sub_try. intros ->. rewrite mapM_plain by done.
  simpl. f_equal. induction s as [|c s IH]; [done|]. simpl. by rewrite IH.
Qed.

Lemma re_scan_no_open open close s :
  contains open s = false -> re_scan open close s = map Plain s.
Proof.
  induction s as [|c s IH]; intros Hc.
  - apply re_scan_nil.
  - apply contains_cons_false in Hc as [Hs Hc].
    rewrite re_scan_cons, match_at_no_open by done. simpl. by rewrite IH.
Qed.

(** Characters in front that are not the opening character are kept. *)
Lemma re_scan_skip_prefix (o : char) close pre s :
  o ∉ pre ->
  re_scan [o; o] close (pre ++ s) = map Plain pre ++ re_scan [o; o] close s.
Proof.
  induction pre as [|x pre IH]; [done|].
  intros [Hx Hpre]%not_elem_of_cons. simpl.
  rewrite re_scan_cons, match_at_no_open.
  - by rewrite IH.
  - by apply startswith_head_ne.
Qed.

Lemma no_delimiter_char_notin t x :
  no_delimiter_char t = true -> x ∈ str "[]()*_" -> x ∉ t.
Proof.
  unfold no_delimiter_char. intros Ht Hx Hin.
  rewrite forallb_forall in Ht. apply list_elem_of_In in Hin.
  specialize (Ht x Hin). apply negb_true_iff in Ht.
  assert (existsb (N.eqb x) (str "[]()*_") = true) as He; [|congruence].
  apply existsb_exists. exists x. split; [by apply list_elem_of_In|apply N.eqb_refl].
Qed.

(** A pass whose opening character does not occur finds no match. *)
Lemma re_scan_absent x p close s :
  x ∉ s -> re_scan (x :: p) close s = map Plain s.
Proof. intros H. apply re_scan_no_open. by apply contains_absent. Qed.

(** *** When the pattern matches *)

Lemma lazy_plus_complete close inner rest :
  inner <> [] -> newline ∉ inner ->
  is_Some (lazy_plus close (inner ++ close ++ rest)).
Proof.
  induction inner as [|x inner IH]; [done|]. intros _ Hn.
  apply not_elem_of_cons in Hn as [Hx Hn]. simpl.
  assert ((x =? newline)%N = false) as -> by (apply N.eqb_neq; congruence).
  destruct (lit close (inner ++ close ++ rest)) as [r|] eqn:Hl; [by eexists|].
  destruct inner as [|y inner].
  - simpl in Hl. apply lit_None in Hl. by rewrite startswith_app in Hl.
  - destruct IH as [[i r] Hi]; [done|done|]. rewrite Hi. by eexists.
Qed.

(** The pattern matches at the head of [s] exactly when [s] starts with a
    span whose inner text holds no newline. *)
Lemma match_at_is_Some open close s :
  is_Some (match_at open close s)
  <-> exists inner rest,
        inner <> [] /\ (newline ∉ inner) /\ s = open ++ inner ++ close ++ rest.
Proof.
  split.
  - intros [[i r] Hm]. apply match_at_Some in Hm as (Hs & Hne & Hn & _). eauto.
  - intros (i & r & Hne & Hn & ->). unfold match_at.
    assert (lit open (open ++ i ++ close ++ r) = Some (i ++ close ++ r)) as ->
      by (by apply lit_Some).
    by apply lazy_plus_complete.
Qed.

Lemma match_at_is_None open close s :
  (forall inner rest,
      inner <> [] -> newline ∉ inner -> s <> open ++ inner ++ close ++ rest) ->
  match_at open close s = None.
Proof.
  intros H. destruct (match_at open close s) as [[i r]|] eqn:Hm; [|done].
  apply match_at_Some in Hm as (Hs & Hne & Hn & _). by destruct (H i r).
Qed.

Lemma startswith_within p a x y :
  length p <= length a -> startswith p (a ++ x) = startswith p (a ++ y).
Proof.
  revert a. induction p as [|b p IH]; intros a Hlen; [done|].
  destruct a as [|e a]; simpl in *; [lia|].
  f_equal. apply IH. lia.
Qed.

(** A match does not depend on the text behind it. *)
Lemma lazy_plus_local close s inner rest r :
  lazy_plus close s = Some (inner, rest) ->
  lazy_plus close (inner ++ close ++ r) = Some (inner, r).
Proof.
  revert inner. induction s as [|x s IH]; intros inner; simpl; [done|].
  destruct (x =? newline)%N eqn:Hx; [done|].
  destruct (lit close s) as [r'|] eqn:Hl.
  - intros [= <- <-]. simpl. rewrite Hx.
    assert (lit close (close ++ r) = Some r) as -> by (by apply lit_Some). done.
  - destruct (lazy_plus close s) as [[i r']|] eqn:Hp; [|done].
    intros [= <- <-]. simpl. rewrite Hx.
    apply lazy_plus_Some in Hp as (Hs & Hne & _). subst s.
    assert (lit close (i ++ close ++ r) = None) as ->.
    { apply lit_None. apply lit_None in Hl.
      rewrite (app_assoc i close r). rewrite (app_assoc i close r') in Hl.
      rewrite <- Hl. apply startswith_within. rewrite length_app.
      destruct i; [done|simpl; lia]. }
    by rewrite (IH i eq_refl).
Qed.

Lemma match_at_local open close s inner rest r :
  match_at open close s = Some (inner, rest) ->
  match_at open close (open ++ inner ++ close ++ r) = Some (inner, r).
Proof.
  unfold match_at. destruct (lit open s) as [s1|] eqn:Hl; [|done].
  intros Hp.
  assert (lit open (open ++ inner ++ close ++ r) = Some (inner ++ close ++ r)) as ->
    by (by apply lit_Some).
  by eapply lazy_plus_local.
Qed.

(** A match at the head of a text is a match at the head of every longer
    text. *)
Lemma match_at_None_prefix open close s tl :
  match_at open close (s ++ tl) = None -> match_at open close s = None.
Proof.
  intros H. destruct (match_at open close s) as [[i r]|] eqn:Hm; [|done].
  apply match_at_Some in Hm as (-> & Hne & Hn & _).
  assert (is_Some (match_at open close ((open ++ i ++ close ++ r) ++ tl))) as [x Hx].
  { apply match_at_is_Some. exists i, (r ++ tl).
    split; [done|]. split; [done|]. by rewrite <- !app_assoc. }
  congruence.
Qed.

(** *** Where the scan looks for a match *)

Lemma re_scan_span open close s inner rest :
  match_at open close s = Some (inner, rest) ->
  re_scan open close s = Span inner :: re_scan open close rest.
Proof.
  intros Hm. destruct s as [|x s].
  - apply match_at_Some in Hm as (Hs & Hne & _).
    symmetry in Hs. apply app_eq_nil in Hs as [_ Hs].
    apply app_eq_nil in Hs as [Hs _]. done.
  - by rewrite re_scan_cons, Hm.
Qed.

(** The pieces of a scan stand for the scanned text. *)
Lemma re_scan_source open close (s : text) :
  flat_map (piece_source open close) (re_scan open close s) = s.
Proof.
  induction s as [|x s inner rest Hm IH|x s Hm IH] using (scan_ind open close).
  - by rewrite re_scan_nil.
  - rewrite re_scan_cons, Hm. simpl. rewrite IH.
    apply match_at_Some in Hm as (-> & _). by rewrite <- !app_assoc.
  - rewrite re_scan_cons, Hm. simpl. by rewrite IH.
Qed.

(** The text in front of the point where the scan arrives is scanned as
    if it stood alone. *)
Lemma scan_arrives_split open close s tl :
  scan_arrives open close s tl ->
  exists pre, s = pre ++ tl
    /\ re_scan open close s = re_scan open close pre ++ re_scan open close tl.
Proof.
  induction 1 as [s|s inner rest tl Hm _ (pre & -> & IH)|x s tl Hm _ (pre & -> & IH)].
  - exists []. by rewrite re_scan_nil.
  - pose proof Hm as (-> & Hne & Hn & _)%match_at_Some.
    exists (open ++ inner ++ close ++ pre). split; [by rewrite <- !app_assoc|].
    rewrite (re_scan_span _ _ _ _ _ Hm), IH.
    by rewrite (re_scan_span _ _ _ _ _ (match_at_local _ _ _ _ _ pre Hm)).
  - exists (x :: pre). split; [done|].
    rewrite re_scan_cons, Hm, IH. simpl.
    rewrite re_scan_cons.
    by rewrite (match_at_None_prefix open close (x :: pre) tl Hm).
Qed.

(** The scan arrives wherever its pieces have a boundary. *)
Lemma scan_boundary_arrives open close ps : forall pre s qs,
  flat_map (piece_source open close) ps = pre ->
  re_scan open close (pre ++ s) = ps ++ qs ->
  scan_arrives open close (pre ++ s) s /\ qs = re_scan open close s.
Proof.
  induction ps as [|p ps IH]; intros pre s qs Hpre Hscan.
  - simpl in Hpre. subst pre. split; [constructor|done].
  - destruct p as [x|inner]; cbn [flat_map piece_source] in Hpre.
    + subst pre. simpl in Hscan. rewrite re_scan_cons in Hscan.
      destruct (match_at open close _) as [[i r]|] eqn:Hm; [done|].
      injection Hscan as Hscan. destruct (IH _ _ _ eq_refl Hscan) as [Ha Hq].
      split; [|done]. by apply arrives_after_char.
    + destruct (pre ++ s) as [|x t] eqn:Ht.
      { by rewrite re_scan_nil in Hscan. }
      rewrite re_scan_cons in Hscan.
      destruct (match_at open close (x :: t)) as [[i r]|] eqn:Hm; [|done].
      injection Hscan as -> Hscan.
      pose proof Hm as (Hs & _)%match_at_Some.
      rewrite <- Ht, <- Hpre in Hs. rewrite <- !app_assoc in Hs.
      do 3 apply app_inv_head in Hs. subst r.
      destruct (IH _ _ _ eq_refl Hscan) as [Ha Hq].
      split; [|done]. by eapply arrives_after_match.
Qed.

(** *** The scan at an empty pair *)

Section EmptyPairScan.
Variables (o c : char).
Hypothesis c_not_newline : c <> newline.

(** With no closing delimiter behind, no match starts at any of the four
    characters of the pair. *)
Lemma re_scan_at_empty_pair post :
  ~ closes_later [c; c] ([c; c] ++ post) ->
  re_scan [o; o] [c; c] (empty_pair o c ++ post)
  = map Plain (empty_pair o c) ++ re_scan [o; o] [c; c] post.
Proof.
  intros Hno. unfold empty_pair. simpl.
  assert (forall inner rest, inner <> [] -> newline ∉ inner ->
            [c; c] ++ post <> inner ++ [c; c] ++ rest) as H.
  { intros inner rest Hne Hn Heq. apply Hno. by exists inner, rest. }
  assert (forall x, x = c -> x <> newline) as Hc by (intros x ->; done).
  rewrite re_scan_cons, match_at_is_None.
  2:{ intros inner rest Hne Hn Heq. simpl in Heq. injection Heq as Heq.
      by apply (H inner rest). }
  rewrite re_scan_cons, match_at_is_None.
  2:{ intros inner rest Hne Hn Heq. simpl in Heq. injection Heq as Ho Heq.
      apply (H (o :: inner) rest); [done| |simpl in *; congruence].
      apply not_elem_of_cons. split; [|done]. intros E. by apply (Hc o). }
  rewrite re_scan_cons, match_at_is_None.
  2:{ intros inner rest Hne Hn Heq. simpl in Heq. pose proof Heq as Heq'.
      injection Heq' as Ho _ _.
      apply (H (o :: o :: inner) rest); [done| |simpl in *; congruence].
      rewrite !not_elem_of_cons. split_and!; [| |done]; intros E; by apply (Hc o). }
  rewrite re_scan_cons, match_at_is_None.
  2:{ intros inner rest Hne Hn Heq. simpl in Heq. pose proof Heq as Heq'.
      injection Heq' as Ho _.
      apply (H (c :: o :: o :: inner) rest); [done| |simpl in *; congruence].
      rewrite !not_elem_of_cons.
      split_and!; [done| | |done]; intros E; by apply (Hc o). }
  done.
Qed.

(** With a closing delimiter behind, a match starts at the pair. *)
Lemma match_at_empty_pair post :
  closes_later [c; c] ([c; c] ++ post) ->
  is_Some (match_at [o; o] [c; c] (empty_pair o c ++ post)).
Proof.
  intros (inner & rest & Hne & Hn & Heq). apply match_at_is_Some.
  exists inner, rest. split; [done|]. split; [done|].
  unfold empty_pair. simpl in *. by rewrite <- Heq.
Qed.

(** The pair is copied exactly when the scan arrives at it and no closing
    delimiter follows. *)
Lemma empty_pair_copied pre post :
  scan_arrives [o; o] [c; c] (pre ++ empty_pair o c ++ post) (empty_pair o c ++ post)
  /\ ~ closes_later [c; c] ([c; c] ++ post)
  <-> exists ps qs,
        flat_map (piece_source [o; o] [c; c]) ps = pre
        /\ re_scan [o; o] [c; c] (pre ++ empty_pair o c ++ post)
           = ps ++ map Plain (empty_pair o c) ++ qs.
Proof.
  split.
  - intros [Ha Hno]. apply scan_arrives_split in Ha as (pre' & Heq & Hscan).
    apply app_inv_tail in Heq as <-.
    exists (re_scan [o; o] [c; c] pre), (re_scan [o; o] [c; c] post).
    split.
    + apply re_scan_source.
    + by rewrite Hscan, re_scan_at_empty_pair.
  - intros (ps & qs & Hpre & Hscan).
    apply scan_boundary_arrives in Hscan as [Ha Hq]; [|done].
    split; [done|]. intros Hc. apply match_at_empty_pair in Hc as [[i r] Hm].
    unfold empty_pair in Hq, Hm. simpl in Hq, Hm.
    rewrite re_scan_cons, Hm in Hq. done.
Qed.

End EmptyPairScan.

(** *** Substrings *)

Lemma contains_app_false_l d a b :
  contains d (a ++ b) = false -> contains d a = false.
Proof.
  intros H. destruct (contains d a) eqn:E; [|done].
  apply contains_spec in E as (p & q & ->).
  assert (contains d ((p ++ d ++ q) ++ b) = true) as H'; [|congruence].
  apply contains_spec. exists p, (q ++ b). by rewrite <- !app_assoc.
Qed.

(** A pass whose closing delimiter does not occur finds no match. *)
Lemma re_scan_no_close open close (s : text) :
  contains close s = false -> re_scan open close s = map Plain s.
Proof.
  induction s as [|x s IH]; intros Hc.
  - apply re_scan_nil.
  - rewrite re_scan_cons.
    destruct (match_at open close (x :: s)) as [[i r]|] eqn:Hm.
    + apply match_at_Some in Hm as (Hs & _).
      assert (contains close (x :: s) = true) as H; [|congruence].
      apply contains_spec. exists (open ++ i), r. by rewrite <- app_assoc.
    + apply contains_cons_false in Hc as [_ Hc]. simpl. by rewrite IH.
Qed.

Lemma scan_arrives_open_absent o close pre rest :
  contains [o; o] (pre ++ [o]) = false ->
  scan_arrives [o; o] close (pre ++ o :: rest) (o :: rest).
Proof.
  induction pre as [|x pre IH]; intros H; [constructor|].
  apply contains_cons_false in H as [Hs H]. simpl.
  apply arrives_after_char; [|by apply IH].
  apply match_at_no_open. rewrite <- Hs.
  pose proof (startswith_within [o; o] ((x :: pre) ++ [o]) rest []) as H'.
  rewrite app_nil_r, <- app_assoc in H'. apply H'.
  rewrite length_app. simpl. lia.
Qed.

Lemma closes_later_contains c post :
  closes_later [c; c] ([c; c] ++ post) -> contains [c; c] (c :: post) = true.
Proof.
  intros (inner & rest & Hne & _ & Heq). apply contains_spec.
  destruct inner as [|x inner]; [done|].
  simpl in Heq. injection Heq as _ Heq. by exists inner, rest.
Qed.

(** *** Substitution around a copied pair *)

Lemma mapM_app_Some {A B} (f : A -> option B) l1 l2 :
  mapM f (l1 ++ l2) = k1 ← mapM f l1; k2 ← mapM f l2; Some (k1 ++ k2).
Proof.
  induction l1 as [|x l1 IH]; simpl.
  - by destruct (mapM f l2).
  - destruct (f x); simpl; [|done]. rewrite IH.
    destruct (mapM f l1); simpl; [|done]. by destruct (mapM f l2).
Qed.

Lemma re_sub_pieces open close f pre pair post :
  re_scan open close (pre ++ pair ++ post)
  = re_scan open close pre ++ map Plain pair ++ re_scan open close post ->
  re_sub open close f (pre ++ pair ++ post)
  = re_sub open close f pre ++ pair ++ re_sub open close f post.
Proof.
  unfold re_sub. intros ->. rewrite !map_app, !concat_app. do 2 f_equal.
  induction pair as [|x pair IH]; [done|]. simpl. by rewrite IH.
Qed.

Lemma re_sub_try_pieces open close f pre pair post :
  re_scan open close (pre ++ pair ++ post)
  = re_scan open close pre ++ map Plain pair ++ re_scan open close post ->
  re_sub_try open close f (pre ++ pair ++ post)
  = a ← re_sub_try open close f pre;
    b ← re_sub_try open close f post;
    Some (a ++ pair ++ b).
Proof.
  unfold re_sub_try. intros ->. rewrite !mapM_app_Some, mapM_plain by done.
  destruct (mapM _ (re_scan open close pre)) as [k1|]; [|done].
  destruct (mapM _ (re_scan open close post)) as [k2|]; [|done].
  simpl. rewrite !concat_app. do 3 f_equal.
  induction pair as [|x pair IH]; [done|]. simpl. by rewrite IH.
Qed.

(** *** The four pairs of the program *)

Lemma delimiter_chars_cases (Q : char -> char -> Prop) o c :
  (o, c) ∈ delimiter_chars ->
  Q 91%N 93%N -> Q 40%N 41%N -> Q 42%N 42%N -> Q 95%N 95%N -> Q o c.
Proof.
  unfold delimiter_chars. rewrite !elem_of_cons, elem_of_nil.
  intros [E|[E|[E|[E|[]]]]]; injection E as -> ->; done.
Qed.

Lemma delimiter_chars_no_newline o c :
  (o, c) ∈ delimiter_chars -> c <> newline.
Proof. intros H. by apply (delimiter_chars_cases (fun _ c => c <> newline) o c H). Qed.

(** In a text where the own delimiters of the pair stand nowhere else,
    the pass of the pair finds no match. *)
Lemma re_scan_lone_empty_pair o c pre post :
  c <> newline ->
  contains [o; o] (pre ++ [o]) = false ->
  contains [c; c] (c :: post) = false ->
  re_scan [o; o] [c; c] (pre ++ empty_pair o c ++ post)
  = map Plain (pre ++ empty_pair o c ++ post).
Proof.
  intros Hc Ho Hcl.
  pose proof (scan_arrives_open_absent o [c; c] pre (o :: c :: c :: post) Ho) as Ha.
  apply scan_arrives_split in Ha as (pre' & Heq & Hscan).
  apply app_inv_tail in Heq as <-.
  change (pre ++ empty_pair o c ++ post) with (pre ++ o :: o :: c :: c :: post).
  rewrite Hscan.
  change (o :: o :: c :: c :: post) with (empty_pair o c ++ post).
  rewrite re_scan_at_empty_pair; [|done|].
  2:{ intros H%closes_later_contains. congruence. }
  rewrite (re_scan_no_open [o; o]) by (by eapply contains_app_false_l).
  rewrite (re_scan_no_close _ [c; c] post)
    by (by apply contains_cons_false in Hcl as [_ ?]).
  by rewrite !map_app.
Qed.

(** C10, as amended.  No substitution ever has an empty inner text: every
    match of every pass has at least one character between its
    delimiters, so the MD5 digest of the empty text is never produced for
    [[[]]].  An occurrence of [[[]]], [(())], [****] or [____] is copied
    character by character by the pass it belongs to exactly when the scan
    of that pass arrives at the pair, no match found earlier reaching over
    its first character, and the closing delimiter does not stand again on
    the line, one or more characters behind the start of the pair's own
    closing delimiter.  The pass then treats the text in front of the
    pair and the text behind it as if each stood alone.  When moreover the
    opening delimiter of the pair stands nowhere in front of it, its
    closing delimiter nowhere behind it (in both cases also not with a
    character of the pair) and the opening delimiter of no other pass
    stands in the text, the whole text goes through inline processing
    unchanged. *)
Theorem empty_pairs_kept :
  (forall open close s, Span [] ∉ re_scan open close s)
  /\ map (fun oc => ([oc.1; oc.1], [oc.2; oc.2], empty_pair oc.1 oc.2))
         delimiter_chars
     = [(str "[[", str "]]", str "[[]]"); (str "((", str "))", str "(())");
        (str "**", str "**", str "****"); (str "__", str "__", str "____")]
  /\ (forall o c pre post,
         (o, c) ∈ delimiter_chars ->
         (scan_arrives [o; o] [c; c] (pre ++ empty_pair o c ++ post)
                       (empty_pair o c ++ post)
          /\ ~ closes_later [c; c] ([c; c] ++ post))
         <-> (exists ps qs,
                 flat_map (piece_source [o; o] [c; c]) ps = pre
                 /\ re_scan [o; o] [c; c] (pre ++ empty_pair o c ++ post)
                    = ps ++ map Plain (empty_pair o c) ++ qs))
  /\ (forall o c pre post,
         (o, c) ∈ delimiter_chars ->
         scan_arrives [o; o] [c; c] (pre ++ empty_pair o c ++ post)
                      (empty_pair o c ++ post) ->
         ~ closes_later [c; c] ([c; c] ++ post) ->
         (forall f,
             re_sub [o; o] [c; c] f (pre ++ empty_pair o c ++ post)
             = re_sub [o; o] [c; c] f pre ++ empty_pair o c
               ++ re_sub [o; o] [c; c] f post)
         /\ (forall f,
                re_sub_try [o; o] [c; c] f (pre ++ empty_pair o c ++ post)
                = a ← re_sub_try [o; o] [c; c] f pre;
                  b ← re_sub_try [o; o] [c; c] f post;
                  Some (a ++ empty_pair o c ++ b)))
  /\ (forall o c pre post,
         (o, c) ∈ delimiter_chars ->
         contains [o; o] (pre ++ [o]) = false ->
         contains [c; c] (c :: post) = false ->
         (forall o' c', (o', c') ∈ delimiter_chars -> o' <> o ->
                        contains [o'; o'] (pre ++ empty_pair o c ++ post) = false) ->
         inline (pre ++ empty_pair o c ++ post)
         = Some (pre ++ empty_pair o c ++ post)).
Proof.
  split; [apply re_scan_no_empty_span|]. split; [reflexivity|].
  split; [|split].
  - intros o c pre post Hin. apply empty_pair_copied.
    by eapply delimiter_chars_no_newline.
  - intros o c pre post Hin Ha Hno.
    assert (re_scan [o; o] [c; c] (pre ++ empty_pair o c ++ post)
            = re_scan [o; o] [c; c] pre ++ map Plain (empty_pair o c)
              ++ re_scan [o; o] [c; c] post) as Hscan.
    { apply scan_arrives_split in Ha as (pre' & Heq & ->).
      apply app_inv_tail in Heq as <-.
      rewrite re_scan_at_empty_pair; [done| |done].
      by eapply delimiter_chars_no_newline. }
    split; intros f; [by apply re_sub_pieces|by apply re_sub_try_pieces].
  - intros o c pre post Hin Ho Hc Hother.
    pose proof (re_scan_lone_empty_pair o c pre post
                  (delimiter_chars_no_newline o c Hin) Ho Hc) as Hown.
    assert (forall o' c', (o', c') ∈ delimiter_chars ->
              re_scan [o'; o'] [c'; c'] (pre ++ empty_pair o c ++ post)
              = map Plain (pre ++ empty_pair o c ++ post)) as Hall.
    { intros o' c' Hin'. destruct (decide (o' = o)) as [->|Hne].
      - assert (c' = c) as ->; [|done].
        revert Hin'.
        apply (delimiter_chars_cases
                 (fun o c => (o, c') ∈ delimiter_chars -> c' = c) o c Hin);
          unfold delimiter_chars; rewrite !elem_of_cons, elem_of_nil;
          intros [E|[E|[E|[E|[]]]]]; by injection E.
      - apply re_scan_no_open. by eapply Hother. }
    assert (forall o' c', (o', c') ∈ delimiter_chars -> (o', c') ∈ delimiter_chars)
      as Hmem by done.
    unfold inline, process_special_syntax, parse_bold_text.
    rewrite (re_sub_try_plain (str "[[") (str "]]"))
      by (apply (Hall 91%N 93%N), Hmem; unfold delimiter_chars;
          rewrite !elem_of_cons; tauto).
    simpl.
    rewrite (re_sub_plain (str "((") (str "))"))
      by (apply (Hall 40%N 41%N), Hmem; unfold delimiter_chars;
          rewrite !elem_of_cons; tauto).
    simpl.
    rewrite (re_sub_plain (str "**") (str "**"))
      by (apply (Hall 42%N 42%N), Hmem; unfold delimiter_chars;
          rewrite !elem_of_cons; tauto).
    rewrite (re_sub_plain (str "__") (str "__"))
      by (apply (Hall 95%N 95%N), Hmem; unfold delimiter_chars;
          rewrite !elem_of_cons; tauto).
    done.
Qed.

Lemma empty_pairs_kept_witness :
  inline (str "f(x) [[]]") = Some (str "f(x) [[]]")
  /\ inline (str "a*b ____ c_d") = Some (str "a*b ____ c_d")
  /\ re_sub_try (str "[[") (str "]]") md5_hex (str "[[a]] [[]] b")
     = Some (str "0cc175b9c0f1b6a831c399e269772661 [[]] b").
Proof.
  destruct empty_pairs_kept as (_ & _ & _ & Hpass & Hkept).
  assert (forall (o o' c' : char) (t : text),
            (o', c') ∈ delimiter_chars -> o' <> o ->
            contains [91; 91]%N t = false \/ o = 91%N ->
            contains [40; 40]%N t = false ->
            contains [42; 42]%N t = false ->
            contains [95; 95]%N t = false \/ o = 95%N ->
            contains [o'; o'] t = false) as Hother.
  { intros o o' c' t Hin Hne H1 H2 H3 H4. revert Hne.
    apply (delimiter_chars_cases (fun o' _ => o' <> o -> contains [o'; o'] t = false)
             o' c' Hin); intros Hne; try done.
    - destruct H1 as [?| ->]; done.
    - destruct H4 as [?| ->]; done. }
  split; [|split].
  - apply (Hkept 91%N 93%N (str "f(x) ") []).
    + unfold delimiter_chars. rewrite !elem_of_cons. tauto.
    + vm_compute. reflexivity.
    + vm_compute. reflexivity.
    + intros o' c' Hin Hne. apply (Hother 91%N o' c' _ Hin Hne);
        first [by right | by left | vm_compute; reflexivity].
  - apply (Hkept 95%N 95%N (str "a*b ") (str " c_d")).
    + unfold delimiter_chars. rewrite !elem_of_cons. tauto.
    + vm_compute. reflexivity.
    + vm_compute. reflexivity.
    + intros o' c' Hin Hne. apply (Hother 95%N o' c' _ Hin Hne);
        first [by right | by left | vm_compute; reflexivity].
  - destruct (Hpass 91%N 93%N (str "[[a]] ") (str " b")) as [_ Htry].
    + unfold delimiter_chars. rewrite !elem_of_cons. tauto.
    + eapply arrives_after_match; [vm_compute; reflexivity|].
      apply arrives_after_char; [vm_compute; reflexivity|]. apply arrives_here.
    + intros (inner & rest & Hne & _ & Heq).
      vm_compute in Heq.
      destruct inner as [|x [|y [|z [|u [|v inner]]]]];
        [done|simpl in Heq; discriminate Heq..].
    + etransitivity; [apply (Htry md5_hex)|]. vm_compute. reflexivity.
Defined.

(** C10 as stated fails: an empty pair followed later by a closing
    delimiter opens a longer span, which is substituted, and an empty pair
    inside a span that starts earlier is substituted with it; in neither
    case does the pair reach the output. *)
Lemma empty_pair_consumed :
  inline (str "[[]] [[x]]") = Some (str "23a6360d9c0bcdc8e73268d8ebc3a174")
  /\ contains (str "[[]]") (str "23a6360d9c0bcdc8e73268d8ebc3a174") = false
  /\ md5_hex (str "]] [[x") = Some (str "23a6360d9c0bcdc8e73268d8ebc3a174")
  /\ inline (str "****a**") = Some (str "<b>**a</b>")
  /\ contains (str "****") (str "<b>**a</b>") = false
  /\ inline (str "[[ [[]] ]]") = Some (str "3b7ef8b17077e7ff90db8be8bba9d39b ]]")
  /\ contains (str "[[]]") (str "3b7ef8b17077e7ff90db8be8bba9d39b ]]") = false
  /\ md5_hex (str " [[") = Some (str "3b7ef8b17077e7ff90db8be8bba9d39b").
Proof. repeat split; vm_compute; reflexivity. Qed.

(** ** Headings *)

#[local] Arguments N.eqb : simpl never.

Lemma hd_split_nil sep : hd [] (split sep []) = [].
Proof. done. Qed.

Lemma hd_split_cons sep c s :
  hd [] (split sep (c :: s)) =
  if (c =? sep)%N then [] else c :: hd [] (split sep s).
Proof.
  simpl. destruct (c =? sep)%N; [done|]. by destruct (split sep s).
Qed.

Lemma leading_hashes_le_token s :
  leading_hashes s <= length (hd [] (split space s)).
Proof.
  induction s as [|c s IH]; [done|].
  rewrite hd_split_cons. simpl. destruct (c =? 35)%N eqn:E; [|lia].
  apply N.eqb_eq in E as ->. simpl. lia.
Qed.

Lemma leading_hashes_eq_token s :
  drop (leading_hashes s) s = [] \/
  startswith [space] (drop (leading_hashes s) s) = true ->
  length (hd [] (split space s)) = leading_hashes s.
Proof.
  induction s as [|c s IH]; [done|].
  rewrite hd_split_cons. simpl. destruct (c =? 35)%N eqn:E.
  - apply N.eqb_eq in E as ->. simpl. intros H. f_equal. by apply IH.
  - simpl. intros [H|H]; [done|].
    rewrite andb_true_r in H. apply N.eqb_eq in H as <-.
    by rewrite N.eqb_refl.
Qed.

Lemma heading_line_result st s :
  let level := length (hd [] (split space s)) in
  heading_line st s =
  (closing_tags st ++
     match inline (strip (drop level s)) with
     | Some body => [heading_html level body]
     | None => []
     end,
   (fun _ => initial) <$> inline (strip (drop level s))).
Proof.
  unfold heading_line, inline, closing_tags, heading_html.
  destruct st as [[] [] []]; cbn;
    destruct (process_special_syntax _); reflexivity.
Qed.

(** C4, as amended.  For a line whose stripped form starts with [#], the
    level written in the heading tags is the length of the first
    space-delimited token of the stripped line, whatever that token holds,
    with no upper bound; the heading text is what follows that token,
    stripped, after inline processing; the open blocks are closed first and
    none is open afterwards.  The level is at least the number of leading
    [#] characters and equals it when these are followed by a space or by
    the end of the line. *)
Theorem heading_level_is_token_length (st : state) (line : text) :
  startswith (str "#") (strip line) = true ->
  let s := strip line in
  let level := length (hd [] (split space s)) in
  process_line st line =
    (closing_tags st ++
       match inline (strip (drop level s)) with
       | Some body => [heading_html level body]
       | None => []
       end,
     (fun _ => initial) <$> inline (strip (drop level s)))
  /\ leading_hashes s <= level
  /\ (drop (leading_hashes s) s = [] \/
      startswith [space] (drop (leading_hashes s) s) = true ->
      level = leading_hashes s).
Proof.
  intros Hh s level. split; [|split].
  - subst s level. unfold process_line. cbv zeta. rewrite Hh.
    apply heading_line_result.
  - apply leading_hashes_le_token.
  - apply leading_hashes_eq_token.
Qed.

Lemma heading_level_is_token_length_witness :
  process_line (State true false false) (str "####### Deep **down**" ++ [newline])
  = ([str "</ul>"; str "<h7>Deep <b>down</b></h7>"], Some initial).
Proof.
  destruct (heading_level_is_token_length (State true false false)
              (str "####### Deep **down**" ++ [newline])) as (H & _ & _).
  - vm_compute. reflexivity.
  - rewrite H. vm_compute. reflexivity.
Defined.

(** C4 as stated fails: a first token that holds more than [#] characters
    counts in full. *)
Lemma heading_level_not_hash_count :
  process_line initial (str "#abc def" ++ [newline])
  = ([str "<h4>def</h4>"], Some initial)
  /\ leading_hashes (strip (str "#abc def" ++ [newline])) = 1.
Proof. split; vm_compute; reflexivity. Qed.

(** ** Classification of a line *)

Lemma process_line_classify st line :
  process_line st line =
  match classify (strip line) with
  | Heading => heading_line st (strip line)
  | UnorderedItem => unordered_item st (strip line)
  | OrderedItem => ordered_item st (strip line)
  | ParagraphLine => paragraph_line st (strip line)
  | BlankLine => blank_line st
  end.
Proof.
  unfold process_line, classify.
  destruct (startswith (str "#") (strip line)); [done|].
  destruct (startswith (str "- ") (strip line)); [done|].
  destruct (startswith (str "* ") (strip line)); [done|].
  by destruct (negb (bool_decide (strip line = []))).
Qed.

Lemma startswith_head a p s :
  startswith (a :: p) s = true -> exists s', s = a :: s'.
Proof.
  destruct s as [|b s']; [done|]. simpl.
  intros [Hab _]%andb_prop. apply N.eqb_eq in Hab as ->. by exists s'.
Qed.

Lemma classify_unordered s :
  classify s = UnorderedItem <-> startswith (str "- ") s = true.
Proof.
  unfold classify. split.
  - destruct (startswith (str "#") s); [done|].
    destruct (startswith (str "- ") s); [done|].
    by destruct (startswith (str "* ") s), (negb (bool_decide (s = []))).
  - intros H. rewrite H. apply startswith_head in H as [s' ->]. done.
Qed.

Lemma classify_ordered s :
  classify s = OrderedItem <-> startswith (str "* ") s = true.
Proof.
  unfold classify. split.
  - destruct (startswith (str "#") s); [done|].
    destruct (startswith (str "- ") s); [done|].
    by destruct (startswith (str "* ") s), (negb (bool_decide (s = []))).
  - intros H. rewrite H. pose proof H as [s' ->]%startswith_head. done.
Qed.





(** ** Blank lines and runs of unordered items *)

Lemma blank_line_result st :
  blank_line st =
  ((if in_paragraph st then [str "</p>"] else []), Some (set_paragraph false st)).
Proof. by destruct st as [? ? []]. Qed.

Lemma unordered_item_result st s :
  unordered_item st s =
  ((if in_unordered_list st then []
    else (if in_paragraph st then [str "</p>"] else []) ++ [str "<ul>"])
   ++ match inline (strip (drop 2 s)) with
      | Some body => [str "    <li>" ++ body ++ str "</li>"]
      | None => []
      end,
   (fun _ => State true (in_ordered_list st)
                   (in_unordered_list st && in_paragraph st))
     <$> inline (strip (drop 2 s))).
Proof.
  unfold unordered_item, inline.
  destruct st as [[] ? []]; cbn;
    destruct (process_special_syntax _); reflexivity.
Qed.

Lemma process_lines_cons st line rest :
  process_lines st (line :: rest) =
  match process_line st line with
  | (w, Some st') => let '(w', r) := process_lines st' rest in (w ++ w', r)
  | (w, None) => (w, None)
  end.
Proof. done. Qed.

Lemma process_line_blank st line :
  strip line = [] ->
  process_line st line =
  ((if in_paragraph st then [str "</p>"] else []), Some (set_paragraph false st)).
Proof.
  intros H. rewrite process_line_classify, H. apply blank_line_result.
Qed.

Lemma process_line_unordered st line :
  is_unordered_item line = true ->
  process_line st line = unordered_item st (strip line).
Proof.
  intros H. rewrite process_line_classify.
  by apply classify_unordered in H as ->.
Qed.

Lemma blank_not_item line : is_blank line = true -> is_unordered_item line = false.
Proof.
  unfold is_blank, is_unordered_item. intros H%bool_decide_eq_true.
  by rewrite H.
Qed.

(** A run met while the unordered list is open only adds items. *)
Lemma run_in_open_list lines : forall items st,
  in_unordered_list st = true -> in_paragraph st = false ->
  forallb (fun l => is_blank l || is_unordered_item l) lines = true ->
  mapM item_html (List.filter is_unordered_item lines) = Some items ->
  process_lines st lines = (items, Some st).
Proof.
  induction lines as [|l lines IH]; intros items st Hul Hp Hall Hitems.
  - simpl in Hitems. by injection Hitems as <-.
  - simpl in Hall. apply andb_prop in Hall as [Hl Hall].
    rewrite process_lines_cons. simpl in Hitems.
    destruct (is_unordered_item l) eqn:Hitem.
    + rewrite process_line_unordered, unordered_item_result by done.
      apply mapM_Some, Forall2_cons_inv_l in Hitems
        as (item & items' & Hi & Hrest%mapM_Some & ->).
      unfold item_html in Hi.
      destruct (inline (strip (drop 2 (strip l)))) as [body|];
        simpl in Hi; [|done].
      injection Hi as <-.
      rewrite Hul, Hp. cbn.
      assert (State true (in_ordered_list st) false = st) as ->
          by (destruct st; simpl in *; congruence).
      by rewrite (IH items' st).
    + rewrite orb_false_r in Hl. apply bool_decide_eq_true in Hl.
      rewrite process_line_blank by done. rewrite Hp.
      assert (set_paragraph false st = st) as ->
          by (destruct st; unfold set_paragraph; simpl in *; congruence).
      by rewrite (IH items st).
Qed.

(** A run met while no unordered list is open closes an open paragraph
    and opens the list at its first item. *)
Lemma run_opens_list lines : forall items st,
  in_unordered_list st = false ->
  forallb (fun l => is_blank l || is_unordered_item l) lines = true ->
  existsb is_unordered_item lines = true ->
  mapM item_html (List.filter is_unordered_item lines) = Some items ->
  process_lines st lines
  = ((if in_paragraph st then [str "</p>"] else []) ++ str "<ul>" :: items,
     Some (State true (in_ordered_list st) false)).
Proof.
  induction lines as [|l lines IH]; intros items st Hul Hall Hex Hitems; [done|].
  simpl in Hall, Hex. apply andb_prop in Hall as [Hl Hall].
  rewrite process_lines_cons. simpl in Hitems.
  destruct (is_unordered_item l) eqn:Hitem.
  - rewrite process_line_unordered, unordered_item_result by done.
    apply mapM_Some, Forall2_cons_inv_l in Hitems
      as (item & items' & Hi & Hrest%mapM_Some & ->).
    unfold item_html in Hi.
    destruct (inline (strip (drop 2 (strip l)))) as [body|];
      simpl in Hi; [|done].
    injection Hi as <-. rewrite Hul. cbn.
    rewrite (run_in_open_list lines items' (State true (in_ordered_list st) false))
      by done.
    by rewrite <- !app_assoc.
  - rewrite orb_false_r in Hl. apply bool_decide_eq_true in Hl.
    rewrite process_line_blank by done.
    rewrite (IH items (set_paragraph false st)) by done.
    destruct st as [u o []]; reflexivity.
Qed.

(** The end of the input, a heading and a paragraph line close the open
    unordered list before anything else. *)
Lemma flush_closes_list o :
  flush (State true o false)
  = (str "</ul>" :: (if o then [str "</ol>"] else []), Some tt).
Proof. by destruct o. Qed.

Lemma next_line_closes_list o line :
  classify (strip line) = Heading \/ classify (strip line) = ParagraphLine ->
  exists w r, process_line (State true o false) line = (str "</ul>" :: w, r).
Proof.
  rewrite process_line_classify. intros [-> | ->].
  - rewrite heading_line_result. eauto.
  - unfold paragraph_line. destruct o; cbn;
      destruct (process_special_syntax _); cbn; eauto.
Qed.

(** Inline processing succeeds on every text that can be encoded. *)
Lemma encodable_lstrip t : encodable t = true -> encodable (lstrip t) = true.
Proof.
  induction t as [|c t IH]; [done|]. intros H. simpl.
  destruct (is_space c); [|done].
  simpl in H. apply andb_prop in H as [_ H]. auto.
Qed.

Lemma encodable_rev t : encodable (rev t) = encodable t.
Proof.
  unfold encodable. induction t as [|c t IH]; [done|].
  simpl. rewrite forallb_app, IH. simpl. rewrite andb_true_r. apply andb_comm.
Qed.

Lemma encodable_strip t : encodable t = true -> encodable (strip t) = true.
Proof.
  intros H. unfold strip, rstrip. rewrite encodable_rev.
  apply encodable_lstrip. rewrite encodable_rev. by apply encodable_lstrip.
Qed.

Lemma encodable_drop n t : encodable t = true -> encodable (drop n t) = true.
Proof.
  revert n. induction t as [|c t IH]; intros [|n]; try done.
  simpl. intros [_ H]%andb_prop. by apply IH.
Qed.

Lemma inline_encodable t : encodable t = true -> is_Some (inline t).
Proof.
  intros H. unfold inline, process_special_syntax.
  destruct (re_sub_try_forallb (str "[[") (str "]]") md5_hex is_scalar t
              md5_hex_encodable H) as [t1 ->].
  done.
Qed.

Lemma item_html_encodable lines :
  forallb encodable lines = true ->
  is_Some (mapM item_html (List.filter is_unordered_item lines)).
Proof.
  induction lines as [|l lines IH]; [done|]. simpl.
  intros [Hl Hrest]%andb_prop. specialize (IH Hrest) as [items Hitems].
  destruct (is_unordered_item l); [|by exists items].
  destruct (inline_encodable (strip (drop 2 (strip l)))) as [body Hbody].
  { by apply encodable_strip, encodable_drop, encodable_strip. }
  exists ((str "    <li>" ++ body ++ str "</li>") :: items).
  apply mapM_Some. constructor; [|by apply mapM_Some].
  unfold item_html. by rewrite Hbody.
Qed.

(** A blank line writes [</p>] when a paragraph is open and nothing
    otherwise, clears the paragraph flag and leaves both list flags as they
    are.  Hence a run of unordered item lines and blank lines with at least
    one item, met while no unordered list is open, writes [<ul>] (after
    the [</p>] of a paragraph it ends) and one [<li>] line per item line in
    order, and [</ul>] is the first line written at the end of the input,
    by a heading or by a paragraph line that follows; an input that is such
    a run is converted to [<ul>], the items and [</ul>].  The item lines
    exist whenever the input can be encoded. *)
Lemma blank_lines_and_runs :
  (forall st line,
      strip line = [] ->
      process_line st line
      = ((if in_paragraph st then [str "</p>"] else []),
         Some (State (in_unordered_list st) (in_ordered_list st) false)))
  /\ (forall lines items,
         forallb (fun l => is_blank l || is_unordered_item l) lines = true ->
         existsb is_unordered_item lines = true ->
         mapM item_html (List.filter is_unordered_item lines) = Some items ->
         length items = length (List.filter is_unordered_item lines)
         /\ convert lines = (str "<ul>" :: items ++ [str "</ul>"], Some tt)
         /\ forall st,
             in_unordered_list st = false ->
             process_lines st lines
             = ((if in_paragraph st then [str "</p>"] else [])
                  ++ str "<ul>" :: items,
                Some (State true (in_ordered_list st) false)))
  /\ (forall o,
         flush (State true o false)
         = (str "</ul>" :: (if o then [str "</ol>"] else []), Some tt))
  /\ (forall o line,
         classify (strip line) = Heading \/ classify (strip line) = ParagraphLine ->
         exists w r, process_line (State true o false) line = (str "</ul>" :: w, r))
  /\ (forall lines,
         forallb encodable lines = true ->
         is_Some (mapM item_html (List.filter is_unordered_item lines))).
Proof.
  split; [|split; [|split; [|split]]].
  - intros st line H. by rewrite process_line_blank.
  - intros lines items Hall Hex Hitems. split; [|split].
    + apply mapM_Some, Forall2_length in Hitems. done.
    + unfold convert. cbn [mbind io_bind].
      rewrite (run_opens_list lines items initial) by done.
      cbn. reflexivity.
    + intros st Hst. by apply run_opens_list.
  - apply flush_closes_list.
  - apply next_line_closes_list.
  - apply item_html_encodable.
Qed.

Lemma blank_lines_and_runs_example :
  convert [str "" ++ [newline];
           str "- one" ++ [newline];
           str "   " ++ [newline];
           str "- **two**" ++ [newline];
           str "" ++ [newline]]
  = ([str "<ul>"; str "    <li>one</li>"; str "    <li><b>two</b></li>";
      str "</ul>"], Some tt)
  /\ process_line (State true false true) [newline]
     = ([str "</p>"], Some (State true false false))
  /\ exists w r,
      process_line (State true false false) (str "text" ++ [newline])
      = (str "</ul>" :: w, r).
Proof.
  destruct blank_lines_and_runs as (Hblank & Hrun & _ & Hnext & _).
  split; [|split].
  - refine (proj1 (proj2 (Hrun _ [str "    <li>one</li>";
                                  str "    <li><b>two</b></li>"] _ _ _)));
      vm_compute; reflexivity.
  - apply (Hblank (State true false true) [newline]). vm_compute. reflexivity.
  - apply Hnext. right. vm_compute. reflexivity.
Defined.

(** ** Switching between the two kinds of list *)

(** C1. The three flags are not mutually exclusive: an ordered item that
    follows an unordered one leaves both list flags set, because the list
    branches close an open paragraph but not the list of the other kind. *)
Theorem both_lists_open_after_switch :
  process_lines initial [str "- a" ++ [newline]; str "* b" ++ [newline]]
  = ([str "<ul>"; str "    <li>a</li>"; str "<ol>"; str "    <li>b</li>"],
     Some (State true true false))
  /\ at_most_one (State true true false) = false.
Proof. split; vm_compute; reflexivity. Qed.

(** C2. An ordered item met while an unordered list is open writes [<ol>]
    and the item without closing [</ul>] first and leaves the unordered
    flag set; an unordered item met while an ordered list is open does the
    same with the roles exchanged. *)
Theorem list_switch_does_not_close :
  process_line (State true false false) (str "* b" ++ [newline])
  = ([str "<ol>"; str "    <li>b</li>"], Some (State true true false))
  /\ process_line (State false true false) (str "- b" ++ [newline])
  = ([str "<ul>"; str "    <li>b</li>"], Some (State true true false))
  /\ process_lines initial [str "- a" ++ [newline]]
  = ([str "<ul>"; str "    <li>a</li>"], Some (State true false false))
  /\ process_lines initial [str "* a" ++ [newline]]
  = ([str "<ol>"; str "    <li>a</li>"], Some (State false true false))
  /\ convert [str "* a" ++ [newline]; str "- b" ++ [newline]]
  = ([str "<ol>"; str "    <li>a</li>"; str "<ul>"; str "    <li>b</li>";
      str "</ul>"; str "</ol>"], Some tt).
Proof. repeat split; vm_compute; reflexivity. Qed.

(** C3. The output for an unordered item followed by an ordered item is
    not properly nested: [<ul>] is opened first and closed first. *)
Theorem switch_output_not_nested :
  convert [str "- a" ++ [newline]; str "* b" ++ [newline]]
  = ([str "<ul>"; str "    <li>a</li>"; str "<ol>"; str "    <li>b</li>";
      str "</ul>"; str "</ol>"], Some tt)
  /\ well_nested [str "<ul>"; str "    <li>a</li>"; str "<ol>";
                  str "    <li>b</li>"; str "</ul>"; str "</ol>"] = false.
Proof. split; vm_compute; reflexivity. Qed.

(** C6. A blank line leaves an open list open, but a run of unordered
    items is not always written as [<ul>], its items and [</ul>]: the
    unordered flag is still set after an ordered item has followed an
    unordered one, so the next run of unordered items opens no list, with or
    without blank lines in it. *)
Theorem run_after_switch_opens_no_list :
  convert [str "- a" ++ [newline]; str "* b" ++ [newline];
           [newline]; str "- c" ++ [newline]]
  = ([str "<ul>"; str "    <li>a</li>"; str "<ol>"; str "    <li>b</li>";
      str "    <li>c</li>"; str "</ul>"; str "</ol>"], Some tt)
  /\ process_lines (State true true false) [[newline]; str "- c" ++ [newline]]
     = ([str "    <li>c</li>"], Some (State true true false)).
Proof. split; vm_compute; reflexivity. Qed.

(** ** The invariant away from list switches *)

(** Unless an item of one kind of list meets an open list of the other
    kind, a line keeps the three flags mutually exclusive. *)
Lemma at_most_one_preserved st line w st' :
  at_most_one st = true ->
  ~ (in_unordered_list st = true /\ classify (strip line) = OrderedItem) ->
  ~ (in_ordered_list st = true /\ classify (strip line) = UnorderedItem) ->
  process_line st line = (w, Some st') ->
  at_most_one st' = true.
Proof.
  intros Hst Hno1 Hno2. rewrite process_line_classify.
  destruct (classify (strip line)) eqn:Hk.
  - rewrite heading_line_result.
    destruct (inline _); simpl; [|done]. by intros [= _ <-].
  - rewrite unordered_item_result.
    destruct (inline _); simpl; [|done]. intros [= _ <-].
    destruct st as [[] [] []]; try done. by destruct Hno2.
  - unfold ordered_item.
    destruct st as [[] [] []]; try done; try (by destruct Hno1); cbn;
      destruct (process_special_syntax _); cbn; try done; by intros [= _ <-].
  - unfold paragraph_line.
    destruct st as [[] [] []]; try done; cbn;
      destruct (process_special_syntax _); cbn; try done; by intros [= _ <-].
  - rewrite blank_line_result. intros [= _ <-].
    by destruct st as [[] [] []].
Qed.

(** ** The driver *)

(** C8. With both arguments given and an input path that is not an
    existing regular file, [main] prints the missing-file message, exits
    with code 1 and leaves every file as it was: the output path is neither
    created nor written. *)
Theorem main_missing_input (argv : list text) (w : world) :
  (3 <= length argv)%nat ->
  isfile w (nth 1 argv []) = false ->
  main argv w = (World (files w) (stderr w ++ [Missing (nth 1 argv [])]), 1%Z)
  /\ files (fst (main argv w)) = files w
  /\ files (fst (main argv w)) !! nth 2 argv [] = files w !! nth 2 argv []
  /\ snd (main argv w) <> 0%Z.
Proof.
  intros Hlen Hfile. unfold main.
  destruct (length argv <? 3)%nat eqn:E.
  { apply Nat.ltb_lt in E. lia. }
  rewrite Hfile. simpl. done.
Qed.

Lemma main_missing_input_witness :
  main [str "./markdown2html.py"; str "README.md"; str "README.html"]
       (World {[ str "other.md" := File (str "# t") ]} [])
  = (World {[ str "other.md" := File (str "# t") ]} [Missing (str "README.md")],
     1%Z)
  /\ files (fst (main [str "./markdown2html.py"; str "README.md";
                       str "README.html"]
                      (World {[ str "other.md" := File (str "# t") ]} [])))
       !! str "README.html" = None.
Proof.
  destruct (main_missing_input
              [str "./markdown2html.py"; str "README.md"; str "README.html"]
              (World {[ str "other.md" := File (str "# t") ]} []))
    as (H1 & H2 & H3 & H4).
  - simpl. lia.
  - vm_compute. reflexivity.
  - split; [exact H1|].
    etransitivity; [exact H3|]. vm_compute. reflexivity.
Defined.

(** * Further properties of the state machine *)

Lemma convert_unfold lines :
  convert lines =
  match process_lines initial lines with
  | (w, Some st) => let '(w', r) := flush st in (w ++ w', r)
  | (w, None) => (w, None)
  end.
Proof. done. Qed.

Lemma ordered_item_result st s :
  ordered_item st s =
  ((if in_ordered_list st then []
    else (if in_paragraph st then [str "</p>"] else []) ++ [str "<ol>"])
   ++ match inline (strip (drop 2 s)) with
      | Some body => [str "    <li>" ++ body ++ str "</li>"]
      | None => []
      end,
   (fun _ => State (in_unordered_list st) true
                   (in_ordered_list st && in_paragraph st))
     <$> inline (strip (drop 2 s))).
Proof.
  unfold ordered_item, inline.
  destruct st as [? [] []]; cbn;
    destruct (process_special_syntax _); reflexivity.
Qed.

Lemma paragraph_line_result st s :
  paragraph_line st s =
  ((if in_paragraph st then [str "    <br/>"]
    else closing_list_tags st ++ [str "<p>"])
   ++ match inline s with
      | Some body => [str "    " ++ body]
      | None => []
      end,
   (fun _ => if in_paragraph st then st else State false false true)
     <$> inline s).
Proof.
  unfold paragraph_line, inline, closing_list_tags.
  destruct st as [[] [] []]; cbn;
    destruct (process_special_syntax _); reflexivity.
Qed.

Lemma process_line_ordered st line :
  is_ordered_item line = true ->
  process_line st line = ordered_item st (strip line).
Proof.
  intros H. rewrite process_line_classify.
  by apply classify_ordered in H as ->.
Qed.

Lemma process_line_paragraph st line :
  is_paragraph_line line = true ->
  process_line st line = paragraph_line st (strip line).
Proof.
  intros H%bool_decide_eq_true. by rewrite process_line_classify, H.
Qed.

Lemma blank_not_ordered line : is_blank line = true -> is_ordered_item line = false.
Proof.
  unfold is_blank, is_ordered_item. intros H%bool_decide_eq_true.
  by rewrite H.
Qed.

(** ** Runs of ordered items *)

Lemma ordered_run_in_open_list lines : forall items st,
  in_ordered_list st = true -> in_paragraph st = false ->
  forallb (fun l => is_blank l || is_ordered_item l) lines = true ->
  mapM item_html (List.filter is_ordered_item lines) = Some items ->
  process_lines st lines = (items, Some st).
Proof.
  induction lines as [|l lines IH]; intros items st Hol Hp Hall Hitems.
  - simpl in Hitems. by injection Hitems as <-.
  - simpl in Hall. apply andb_prop in Hall as [Hl Hall].
    rewrite process_lines_cons. simpl in Hitems.
    destruct (is_ordered_item l) eqn:Hitem.
    + rewrite process_line_ordered, ordered_item_result by done.
      apply mapM_Some, Forall2_cons_inv_l in Hitems
        as (item & items' & Hi & Hrest%mapM_Some & ->).
      unfold item_html in Hi.
      destruct (inline (strip (drop 2 (strip l)))) as [body|];
        simpl in Hi; [|done].
      injection Hi as <-.
      rewrite Hol, Hp. cbn.
      assert (State (in_unordered_list st) true false = st) as ->
          by (destruct st; simpl in *; congruence).
      by rewrite (IH items' st).
    + rewrite orb_false_r in Hl. apply bool_decide_eq_true in Hl.
      rewrite process_line_blank by done. rewrite Hp.
      assert (set_paragraph false st = st) as ->
          by (destruct st; unfold set_paragraph; simpl in *; congruence).
      by rewrite (IH items st).
Qed.

Lemma ordered_run_opens_list lines : forall items st,
  in_ordered_list st = false ->
  forallb (fun l => is_blank l || is_ordered_item l) lines = true ->
  existsb is_ordered_item lines = true ->
  mapM item_html (List.filter is_ordered_item lines) = Some items ->
  process_lines st lines
  = ((if in_paragraph st then [str "</p>"] else []) ++ str "<ol>" :: items,
     Some (State (in_unordered_list st) true false)).
Proof.
  induction lines as [|l lines IH]; intros items st Hol Hall Hex Hitems; [done|].
  simpl in Hall, Hex. apply andb_prop in Hall as [Hl Hall].
  rewrite process_lines_cons. simpl in Hitems.
  destruct (is_ordered_item l) eqn:Hitem.
  - rewrite process_line_ordered, ordered_item_result by done.
    apply mapM_Some, Forall2_cons_inv_l in Hitems
      as (item & items' & Hi & Hrest%mapM_Some & ->).
    unfold item_html in Hi.
    destruct (inline (strip (drop 2 (strip l)))) as [body|];
      simpl in Hi; [|done].
    injection Hi as <-. rewrite Hol. cbn.
    rewrite (ordered_run_in_open_list lines items'
               (State (in_unordered_list st) true false)) by done.
    by rewrite <- !app_assoc.
  - rewrite orb_false_r in Hl. apply bool_decide_eq_true in Hl.
    rewrite process_line_blank by done.
    rewrite (IH items (set_paragraph false st)) by done.
    destruct st as [u o []]; reflexivity.
Qed.

(** X1.  A run of ordered item lines and blank lines with at least one
    item, met while no ordered list is open, closes an open paragraph,
    writes [<ol>] and one [<li>] line per item line in order, and leaves
    the ordered list open and the paragraph closed; an input that is such a
    run is converted to [<ol>], the items and [</ol>]. *)
Theorem ordered_run_output (lines items : list text) :
  forallb (fun l => is_blank l || is_ordered_item l) lines = true ->
  existsb is_ordered_item lines = true ->
  mapM item_html (List.filter is_ordered_item lines) = Some items ->
  length items = length (List.filter is_ordered_item lines)
  /\ convert lines = (str "<ol>" :: items ++ [str "</ol>"], Some tt)
  /\ forall st,
      in_ordered_list st = false ->
      process_lines st lines
      = ((if in_paragraph st then [str "</p>"] else []) ++ str "<ol>" :: items,
         Some (State (in_unordered_list st) true false)).
Proof.
  intros Hall Hex Hitems. split; [|split].
  - apply mapM_Some, Forall2_length in Hitems. done.
  - unfold convert. cbn [mbind io_bind].
    rewrite (ordered_run_opens_list lines items initial) by done.
    cbn. reflexivity.
  - intros st Hst. by apply ordered_run_opens_list.
Qed.

Lemma ordered_run_output_witness :
  convert [str "* one" ++ [newline]; [newline]; str "*   __two__" ++ [newline]]
  = ([str "<ol>"; str "    <li>one</li>"; str "    <li><em>two</em></li>";
      str "</ol>"], Some tt).
Proof.
  refine (proj1 (proj2 (ordered_run_output _
            [str "    <li>one</li>"; str "    <li><em>two</em></li>"] _ _ _)));
    vm_compute; reflexivity.
Defined.

(** ** Runs of unordered items *)

(** X2.  A run of unordered item lines and blank lines with at least one
    item, met while no unordered list is open, closes an open paragraph,
    writes [<ul>] and one [<li>] line per item line in order, and leaves
    the unordered list open and the paragraph closed, whatever the ordered
    flag is; an input that is such a run is converted to [<ul>], the items
    and [</ul>].  Blank lines inside the run write nothing. *)
Theorem unordered_run_output (lines items : list text) :
  forallb (fun l => is_blank l || is_unordered_item l) lines = true ->
  existsb is_unordered_item lines = true ->
  mapM item_html (List.filter is_unordered_item lines) = Some items ->
  length items = length (List.filter is_unordered_item lines)
  /\ convert lines = (str "<ul>" :: items ++ [str "</ul>"], Some tt)
  /\ forall st,
      in_unordered_list st = false ->
      process_lines st lines
      = ((if in_paragraph st then [str "</p>"] else []) ++ str "<ul>" :: items,
         Some (State true (in_ordered_list st) false)).
Proof.
  intros Hall Hex Hitems. split; [|split].
  - apply mapM_Some, Forall2_length in Hitems. done.
  - rewrite convert_unfold.
    rewrite (run_opens_list lines items initial) by done.
    cbn. reflexivity.
  - intros st Hst. by apply run_opens_list.
Qed.

Lemma unordered_run_output_witness :
  process_lines (State false false true)
    [[newline]; str "- one" ++ [newline]; [newline]; str "-  **two**" ++ [newline]]
  = ([str "</p>"; str "<ul>"; str "    <li>one</li>";
      str "    <li><b>two</b></li>"], Some (State true false false)).
Proof.
  refine (proj2 (proj2 (unordered_run_output _
            [str "    <li>one</li>"; str "    <li><b>two</b></li>"] _ _ _))
            (State false false true) _);
    vm_compute; reflexivity.
Defined.

(** ** Runs of paragraph lines *)

Lemma paragraph_run_in_paragraph lines : forall texts st,
  in_paragraph st = true ->
  forallb is_paragraph_line lines = true ->
  mapM paragraph_html lines = Some texts ->
  process_lines st lines
  = (flat_map (fun t => [str "    <br/>"; t]) texts, Some st).
Proof.
  induction lines as [|l lines IH]; intros texts st Hp Hall Htexts.
  - simpl in Htexts. by injection Htexts as <-.
  - simpl in Hall. apply andb_prop in Hall as [Hl Hall].
    apply mapM_Some, Forall2_cons_inv_l in Htexts
      as (t & texts' & Ht & Hrest%mapM_Some & ->).
    rewrite process_lines_cons, process_line_paragraph, paragraph_line_result
      by done.
    unfold paragraph_html in Ht.
    destruct (inline (strip l)) as [body|]; simpl in Ht; [|done].
    injection Ht as <-. rewrite Hp. cbn.
    by rewrite (IH texts' st).
Qed.

Lemma paragraph_run_opens lines : forall texts st,
  lines <> [] ->
  in_paragraph st = false ->
  forallb is_paragraph_line lines = true ->
  mapM paragraph_html lines = Some texts ->
  process_lines st lines
  = (closing_list_tags st ++ str "<p>" :: paragraph_body texts,
     Some (State false false true)).
Proof.
  intros texts st Hne Hp Hall Htexts. destruct lines as [|l lines]; [done|].
  simpl in Hall. apply andb_prop in Hall as [Hl Hall].
  apply mapM_Some, Forall2_cons_inv_l in Htexts
    as (t & texts' & Ht & Hrest%mapM_Some & ->).
  rewrite process_lines_cons, process_line_paragraph, paragraph_line_result
    by done.
  unfold paragraph_html in Ht.
  destruct (inline (strip l)) as [body|]; simpl in Ht; [|done].
  injection Ht as <-. rewrite Hp. cbn.
  rewrite (paragraph_run_in_paragraph lines texts' (State false false true))
    by done.
  by rewrite <- !app_assoc.
Qed.

(** X3.  A non-empty run of paragraph lines met while no paragraph is
    open closes the open lists ([</ul>] before [</ol>]), writes [<p>], the
    processed text of the first line and, for every further line, a
    [<br/>] line and its processed text, each indented by four spaces; only
    the paragraph is open afterwards.  An input that is such a run is
    converted to [<p>], these lines and [</p>]. *)
Theorem paragraph_run_output (lines texts : list text) :
  lines <> [] ->
  forallb is_paragraph_line lines = true ->
  mapM paragraph_html lines = Some texts ->
  length texts = length lines
  /\ convert lines
     = (str "<p>" :: paragraph_body texts ++ [str "</p>"], Some tt)
  /\ forall st,
      in_paragraph st = false ->
      process_lines st lines
      = (closing_list_tags st ++ str "<p>" :: paragraph_body texts,
         Some (State false false true)).
Proof.
  intros Hne Hall Htexts. split; [|split].
  - apply mapM_Some, Forall2_length in Htexts. done.
  - unfold convert. cbn [mbind io_bind].
    rewrite (paragraph_run_opens lines texts initial) by done.
    cbn. reflexivity.
  - intros st Hst. by apply paragraph_run_opens.
Qed.

Lemma paragraph_run_output_witness :
  convert [str "Hello" ++ [newline]; str "  **big** world" ++ [newline]]
  = ([str "<p>"; str "    Hello"; str "    <br/>"; str "    <b>big</b> world";
      str "</p>"], Some tt)
  /\ process_lines (State true true false) [str "Hello" ++ [newline]]
     = ([str "</ul>"; str "</ol>"; str "<p>"; str "    Hello"],
        Some (State false false true)).
Proof.
  split.
  - refine (proj1 (proj2 (paragraph_run_output _
              [str "    Hello"; str "    <b>big</b> world"] _ _ _)));
      [done|vm_compute; reflexivity..].
  - refine (proj2 (proj2 (paragraph_run_output [str "Hello" ++ [newline]]
              [str "    Hello"] _ _ _)) (State true true false) _);
      [done|vm_compute; reflexivity..].
Defined.

(** ** Nesting of the output when only one kind of list is used *)

Lemma nested_open S l b r :
  opening_tag l = Some b -> nested S (l :: r) = nested (b :: S) r.
Proof. intros H. simpl. by rewrite H. Qed.

Lemma nested_close S l b r :
  opening_tag l = None -> closing_tag l = Some b ->
  nested (b :: S) (l :: r) = nested S r.
Proof. intros H1 H2. simpl. rewrite H1, H2. by rewrite bool_decide_eq_true_2. Qed.

Lemma nested_content S l r :
  opening_tag l = None -> closing_tag l = None ->
  nested S (l :: r) = nested S r.
Proof. intros H1 H2. simpl. by rewrite H1, H2. Qed.

(** A line that does not start with [<], or starts with [<h], is no
    block tag. *)
Lemma no_tag_head c t :
  c <> 60%N -> opening_tag (c :: t) = None /\ closing_tag (c :: t) = None.
Proof.
  intros Hc. unfold opening_tag, closing_tag.
  repeat case_bool_decide; try done;
    match goal with H : _ :: _ = str _ |- _ => vm_compute in H; congruence end.
Qed.

Lemma no_tag_heading t :
  opening_tag (60%N :: 104%N :: t) = None /\ closing_tag (60%N :: 104%N :: t) = None.
Proof.
  unfold opening_tag, closing_tag.
  repeat case_bool_decide; try done;
    match goal with H : _ :: _ = str _ |- _ => vm_compute in H; congruence end.
Qed.

Lemma nested_heading S level body r :
  nested S (heading_html level body :: r) = nested S r.
Proof. apply nested_content; apply no_tag_heading. Qed.

Lemma nested_item S body r :
  nested S ((str "    <li>" ++ body ++ str "</li>") :: r) = nested S r.
Proof.
  apply nested_content;
    apply (no_tag_head 32%N (str "   <li>" ++ body ++ str "</li>")); done.
Qed.

Lemma nested_text S body r :
  nested S ((str "    " ++ body) :: r) = nested S r.
Proof.
  apply nested_content; apply (no_tag_head 32%N (str "   " ++ body)); done.
Qed.

Lemma nested_break S r : nested S (str "    <br/>" :: r) = nested S r.
Proof. by apply nested_content. Qed.

Lemma nested_tags S r :
  nested S (str "<ul>" :: r) = nested (Ul :: S) r
  /\ nested S (str "<ol>" :: r) = nested (Ol :: S) r
  /\ nested S (str "<p>" :: r) = nested (Par :: S) r
  /\ nested (Ul :: S) (str "</ul>" :: r) = nested S r
  /\ nested (Ol :: S) (str "</ol>" :: r) = nested S r
  /\ nested (Par :: S) (str "</p>" :: r) = nested S r.
Proof.
  repeat split; first [by apply nested_open | by apply nested_close].
Qed.

(** Rewriting [nested] along the lines a branch writes. *)
Ltac nest :=
  cbn [app closing_tags closing_list_tags open_blocks
       in_unordered_list in_ordered_list in_paragraph];
  repeat first
    [ rewrite nested_heading | rewrite nested_item | rewrite nested_text
    | rewrite nested_break
    | rewrite (proj1 (nested_tags _ _))
    | rewrite (proj1 (proj2 (nested_tags _ _)))
    | rewrite (proj1 (proj2 (proj2 (nested_tags _ _))))
    | rewrite (proj1 (proj2 (proj2 (proj2 (nested_tags _ _)))))
    | rewrite (proj1 (proj2 (proj2 (proj2 (proj2 (nested_tags _ _))))))
    | rewrite (proj2 (proj2 (proj2 (proj2 (proj2 (nested_tags _ _)))))) ];
  try reflexivity.

(** One line keeps the output balanced over the open blocks, unless an
    item of one kind of list meets an open list of the other kind. *)
Lemma process_line_nested st line w st' rest :
  at_most_one st = true ->
  ~ (in_unordered_list st = true /\ classify (strip line) = OrderedItem) ->
  ~ (in_ordered_list st = true /\ classify (strip line) = UnorderedItem) ->
  process_line st line = (w, Some st') ->
  nested (open_blocks st) (w ++ rest) = nested (open_blocks st') rest.
Proof.
  intros Hst Hno1 Hno2. rewrite process_line_classify.
  destruct (classify (strip line)) eqn:Hk.
  - rewrite heading_line_result.
    destruct (inline _); simpl; [|done]. intros [= <- <-].
    destruct st as [[] [] []]; try done; nest.
  - rewrite unordered_item_result.
    destruct (inline _); simpl; [|done]. intros [= <- <-].
    destruct st as [[] [] []]; try done; try (by destruct Hno2); nest.
  - rewrite ordered_item_result.
    destruct (inline _); simpl; [|done]. intros [= <- <-].
    destruct st as [[] [] []]; try done; try (by destruct Hno1); nest.
  - rewrite paragraph_line_result.
    destruct (inline _); simpl; [|done]. intros [= <- <-].
    destruct st as [[] [] []]; try done; nest.
  - rewrite blank_line_result. intros [= <- <-].
    destruct st as [[] [] []]; try done; nest.
Qed.

(** A line that is no ordered (unordered) item opens no ordered
    (unordered) list. *)
Lemma process_line_keeps_closed st line w st' :
  process_line st line = (w, Some st') ->
  (classify (strip line) <> OrderedItem ->
   in_ordered_list st = false -> in_ordered_list st' = false)
  /\ (classify (strip line) <> UnorderedItem ->
      in_unordered_list st = false -> in_unordered_list st' = false).
Proof.
  rewrite process_line_classify.
  destruct (classify (strip line)) eqn:Hk.
  - rewrite heading_line_result.
    destruct (inline _); simpl; [|done]. by intros [= _ <-].
  - rewrite unordered_item_result.
    destruct (inline _); simpl; [|done]. by intros [= _ <-].
  - rewrite ordered_item_result.
    destruct (inline _); simpl; [|done]. by intros [= _ <-].
  - rewrite paragraph_line_result.
    destruct (inline _); simpl; [|done]. intros [= _ <-].
    by destruct (in_paragraph st).
  - rewrite blank_line_result. by intros [= _ <-].
Qed.

Section SwitchFree.
Variables (Inv : state -> Prop) (ok : text -> Prop).
Hypothesis Inv_step : forall st line w st',
  Inv st -> ok line -> process_line st line = (w, Some st') -> Inv st'.
Hypothesis Inv_no_switch : forall st line,
  Inv st -> ok line ->
  ~ (in_unordered_list st = true /\ classify (strip line) = OrderedItem)
  /\ ~ (in_ordered_list st = true /\ classify (strip line) = UnorderedItem).

Lemma process_lines_nested lines : forall st out st' rest,
  at_most_one st = true -> Inv st -> Forall ok lines ->
  process_lines st lines = (out, Some st') ->
  nested (open_blocks st) (out ++ rest) = nested (open_blocks st') rest
  /\ at_most_one st' = true /\ Inv st'.
Proof.
  induction lines as [|l lines IH]; intros st out st' rest Hst Hinv Hok.
  - intros [= <- <-]. done.
  - apply Forall_cons in Hok as [Hl Hok]. rewrite process_lines_cons.
    destruct (process_line st l) as [w [st1|]] eqn:Hstep; [|done].
    destruct (process_lines st1 lines) as [w' r] eqn:Hrest.
    intros [= <- ->].
    destruct (Inv_no_switch st l Hinv Hl) as [Hn1 Hn2].
    pose proof (at_most_one_preserved _ _ _ _ Hst Hn1 Hn2 Hstep) as Hst1.
    pose proof (Inv_step _ _ _ _ Hinv Hl Hstep) as Hinv1.
    destruct (IH st1 w' st' rest Hst1 Hinv1 Hok Hrest) as (Hnest & ? & ?).
    split; [|done]. rewrite <- app_assoc.
    by rewrite (process_line_nested st l w st1).
Qed.

End SwitchFree.

Lemma flush_nested st :
  at_most_one st = true ->
  exists w, flush st = (w, Some tt) /\ nested (open_blocks st) w = true.
Proof. destruct st as [[] [] []]; try done; intros _; by eexists. Qed.

Lemma process_lines_app st l1 l2 :
  process_lines st (l1 ++ l2) =
  match process_lines st l1 with
  | (w, Some st') => let '(w', r) := process_lines st' l2 in (w ++ w', r)
  | (w, None) => (w, None)
  end.
Proof.
  revert st. induction l1 as [|l l1 IH]; intros st.
  - simpl. by destruct (process_lines st l2).
  - rewrite <- app_comm_cons, !process_lines_cons.
    destruct (process_line st l) as [w [st1|]]; [|done].
    rewrite IH. destruct (process_lines st1 l1) as [w1 [st2|]]; [|done].
    destruct (process_lines st2 l2). by rewrite app_assoc.
Qed.

(** X4.  When no line of the input is an ordered item, or no line is an
    unordered item, and the conversion does not raise, the output is
    properly nested (every block tag is closed by its matching tag, last
    opened first closed, nothing left open) and after every prefix of the
    input at most one of the three flags is set. *)
Theorem single_list_kind_well_nested (lines out : list text) :
  forallb (fun l => negb (is_ordered_item l)) lines = true
  \/ forallb (fun l => negb (is_unordered_item l)) lines = true ->
  convert lines = (out, Some tt) ->
  well_nested out = true
  /\ forall pre post w st,
      lines = pre ++ post ->
      process_lines initial pre = (w, Some st) ->
      at_most_one st = true.
Proof.
  intros Hkind Hconv.
  assert (exists (Inv : state -> Prop) (ok : text -> Prop),
    Inv initial /\ Forall ok lines
    /\ (forall st line w st', Inv st -> ok line ->
          process_line st line = (w, Some st') -> Inv st')
    /\ (forall st line, Inv st -> ok line ->
          ~ (in_unordered_list st = true /\ classify (strip line) = OrderedItem)
          /\ ~ (in_ordered_list st = true
                /\ classify (strip line) = UnorderedItem)))
    as (Inv & ok & Hinit & Hok & Hstep & Hsw).
  { destruct Hkind as [Hk|Hk].
    - exists (fun st => in_ordered_list st = false),
             (fun l => classify (strip l) <> OrderedItem).
      split; [done|]. split; [|split].
      + apply Forall_forall. intros l Hl%list_elem_of_In.
        rewrite forallb_forall in Hk. specialize (Hk l Hl).
        apply negb_true_iff in Hk. intros Hc%classify_ordered.
        unfold is_ordered_item in Hk. congruence.
      + intros st line w st' Hi Ho Hp.
        by apply (process_line_keeps_closed _ _ _ _ Hp).
      + intros st line Hi Ho. split; intros [? ?]; congruence.
    - exists (fun st => in_unordered_list st = false),
             (fun l => classify (strip l) <> UnorderedItem).
      split; [done|]. split; [|split].
      + apply Forall_forall. intros l Hl%list_elem_of_In.
        rewrite forallb_forall in Hk. specialize (Hk l Hl).
        apply negb_true_iff in Hk. intros Hc%classify_unordered.
        unfold is_unordered_item in Hk. congruence.
      + intros st line w st' Hi Ho Hp.
        by apply (process_line_keeps_closed _ _ _ _ Hp).
      + intros st line Hi Ho. split; intros [? ?]; congruence. }
  split.
  - rewrite convert_unfold in Hconv.
    destruct (process_lines initial lines) as [o1 [st|]] eqn:Hrun; [|done].
    destruct (flush st) as [o2 r] eqn:Hflush. injection Hconv as <- ->.
    destruct (process_lines_nested Inv ok Hstep Hsw lines initial o1 st o2)
      as (Hnest & Hst & _); try done.
    destruct (flush_nested st Hst) as (w & Hw & Hn).
    unfold well_nested. change [] with (open_blocks initial).
    rewrite Hnest. congruence.
  - intros pre post w st -> Hpre.
    apply Forall_app in Hok as [Hok _].
    by destruct (process_lines_nested Inv ok Hstep Hsw pre initial w st [])
      as (_ & Hst & _).
Qed.

Lemma single_list_kind_well_nested_witness :
  well_nested [str "<h1>T</h1>"; str "<ol>"; str "    <li>a</li>"; str "</ol>";
               str "<p>"; str "    text"; str "</p>"; str "<ol>";
               str "    <li>b</li>"; str "</ol>"] = true.
Proof.
  refine (proj1 (single_list_kind_well_nested
            [str "# T" ++ [newline]; str "* a" ++ [newline];
             str "text" ++ [newline]; [newline]; str "* b" ++ [newline]]
            _ _ _)).
  - right. vm_compute. reflexivity.
  - vm_compute. reflexivity.
Defined.

(** * Further properties of the inline passes *)

Section KeepsNoNewline.
Variables (open close : text) (repl : text -> option text).

(** A replacement that adds no newline to a group without newline keeps
    a text free of newlines. *)
Lemma re_sub_try_keeps_no_newline (s : text) : forall out,
  (forall i r, newline ∉ i -> repl i = Some r -> newline ∉ r) ->
  newline ∉ s -> re_sub_try open close repl s = Some out -> newline ∉ out.
Proof.
  induction s as [|c s inner rest Hm IH|c s Hm IH] using (scan_ind open close);
    intros out Hrepl Hn.
  - rewrite re_sub_try_nil. intros [= <-]. apply not_elem_of_nil.
  - rewrite re_sub_try_cons, Hm. simpl.
    destruct (repl inner) as [r|] eqn:Hr; simpl; [|done].
    destruct (re_sub_try open close repl rest) as [o|] eqn:Ho; simpl; [|done].
    intros [= <-]. apply match_at_Some in Hm as (Hs & _ & Hni & _).
    apply not_elem_of_app. split; [exact (Hrepl inner r Hni Hr)|].
    apply IH; [done| |done]. by eapply newline_suffix.
  - rewrite re_sub_try_cons, Hm. simpl.
    destruct (re_sub_try open close repl s) as [o|] eqn:Ho; simpl; [|done].
    intros [= <-]. apply not_elem_of_cons in Hn as [Hc Hn].
    apply not_elem_of_cons. split; [done|]. by apply IH.
Qed.

End KeepsNoNewline.

Lemma re_sub_keeps_no_newline open close f s :
  (forall i, newline ∉ i -> newline ∉ f i) ->
  newline ∉ s -> newline ∉ re_sub open close f s.
Proof.
  intros Hf Hn.
  apply (re_sub_try_keeps_no_newline open close (fun i => Some (f i)) s).
  - intros i r Hi [= <-]. by apply Hf.
  - done.
  - apply re_sub_try_total.
Qed.

Lemma str_no_newline_app (a b i : text) :
  newline ∉ a -> newline ∉ b -> newline ∉ i -> newline ∉ a ++ i ++ b.
Proof. intros. rewrite !not_elem_of_app. done. Qed.

(** Literals are decided by evaluation. *)
Ltac absent_in_literal :=
  let H := fresh in
  intros H; apply list_elem_of_In in H; vm_compute in H; intuition discriminate.

Lemma bold_html_no_newline i : newline ∉ i -> newline ∉ bold_html i.
Proof. intros. apply str_no_newline_app; [absent_in_literal..|done]. Qed.

Lemma em_html_no_newline i : newline ∉ i -> newline ∉ em_html i.
Proof. intros. apply str_no_newline_app; [absent_in_literal..|done]. Qed.

(** X5.  On a text without newline, [parse_bold_text] first replaces
    every leftmost shortest span between [**] and [**] by its inner text
    between [<b>] and [</b>] and then, in the result, every leftmost
    shortest span between [__] and [__] by its inner text between [<em>]
    and [</em>]; what starts no span is kept, and the result is the only
    one these two substitutions allow. *)
Theorem parse_bold_text_spec (t : text) :
  newline ∉ t ->
  exists t1,
    substituted (str "**") (str "**") (fun i => Some (bold_html i)) t t1
    /\ substituted (str "__") (str "__") (fun i => Some (em_html i)) t1
         (parse_bold_text t)
    /\ forall u1 u2,
        substituted (str "**") (str "**") (fun i => Some (bold_html i)) t u1 ->
        substituted (str "__") (str "__") (fun i => Some (em_html i)) u1 u2 ->
        u2 = parse_bold_text t.
Proof.
  intros Hn.
  set (t1 := re_sub (str "**") (str "**") bold_html t).
  assert (newline ∉ t1) as Hn1
    by (apply re_sub_keeps_no_newline; [apply bold_html_no_newline|done]).
  exists t1. split; [|split].
  - apply substituted_re_sub_try; [done|apply re_sub_try_total].
  - apply substituted_re_sub_try; [done|]. apply re_sub_try_total.
  - intros u1 u2 H1 H2.
    apply substituted_re_sub_try in H1; [|done].
    rewrite re_sub_try_total in H1. injection H1 as <-.
    apply substituted_re_sub_try in H2; [|done].
    rewrite re_sub_try_total in H2. by injection H2 as <-.
Qed.

Lemma parse_bold_text_spec_witness :
  exists t1,
    substituted (str "**") (str "**") (fun i => Some (bold_html i))
      (str "a **b** __c__ **d") t1
    /\ substituted (str "__") (str "__") (fun i => Some (em_html i)) t1
         (parse_bold_text (str "a **b** __c__ **d")).
Proof.
  destruct (parse_bold_text_spec (str "a **b** __c__ **d")) as (t1 & H1 & H2 & _).
  - absent_in_literal.
  - by exists t1.
Defined.

(** ** A single span in plain text *)

Section SingleSpan.
Variables (o c : char).

Lemma lazy_plus_single (inner post : text) :
  inner <> [] -> c ∉ inner -> newline ∉ inner ->
  lazy_plus [c; c] (inner ++ [c; c] ++ post) = Some (inner, post).
Proof.
  induction inner as [|x inner IH]; [done|].
  intros _ [Hxc Hc]%not_elem_of_cons [Hxn Hn]%not_elem_of_cons.
  change ((x :: inner) ++ [c; c] ++ post) with (x :: (inner ++ [c; c] ++ post)).
  cbn [lazy_plus].
  assert ((x =? newline)%N = false) as -> by (apply N.eqb_neq; congruence).
  destruct inner as [|y inner].
  - erewrite (proj2 (lit_Some _ _ post)) by reflexivity. done.
  - rewrite (proj2 (lit_None _ _)).
    + by rewrite IH.
    + apply (startswith_head_ne c [c] y (inner ++ [c; c] ++ post)).
      apply not_elem_of_cons in Hc as [? _]. congruence.
Qed.

Lemma match_at_single (inner post : text) :
  inner <> [] -> c ∉ inner -> newline ∉ inner ->
  match_at [o; o] [c; c] ([o; o] ++ inner ++ [c; c] ++ post) = Some (inner, post).
Proof.
  intros Hne Hc Hn. unfold match_at.
  assert (lit [o; o] ([o; o] ++ inner ++ [c; c] ++ post)
          = Some (inner ++ [c; c] ++ post)) as -> by (by apply lit_Some).
  by apply lazy_plus_single.
Qed.

(** One span between characters that are none of the pass's opening
    character: the scan finds exactly this match. *)
Lemma re_scan_single (pre inner post : text) :
  inner <> [] -> c ∉ inner -> newline ∉ inner -> o ∉ pre -> o ∉ post ->
  re_scan [o; o] [c; c] (pre ++ [o; o] ++ inner ++ [c; c] ++ post)
  = map Plain pre ++ Span inner :: map Plain post.
Proof.
  intros Hne Hc Hn Hpre Hpost. rewrite re_scan_skip_prefix by done. f_equal.
  change ([o; o] ++ inner ++ [c; c] ++ post)
    with (o :: ([o] ++ inner ++ [c; c] ++ post)).
  rewrite re_scan_cons.
  change (o :: ([o] ++ inner ++ [c; c] ++ post))
    with ([o; o] ++ inner ++ [c; c] ++ post).
  rewrite match_at_single by done. f_equal. by apply re_scan_absent.
Qed.

Lemma concat_plain (s : text) (g : piece -> text) :
  (forall x, g (Plain x) = [x]) -> concat (map g (map Plain s)) = s.
Proof.
  intros Hg. induction s as [|x s IH]; [done|]. simpl. by rewrite Hg, IH.
Qed.

Lemma re_sub_single f (pre inner post : text) :
  inner <> [] -> c ∉ inner -> newline ∉ inner -> o ∉ pre -> o ∉ post ->
  re_sub [o; o] [c; c] f (pre ++ [o; o] ++ inner ++ [c; c] ++ post)
  = pre ++ f inner ++ post.
Proof.
  intros. unfold re_sub. rewrite re_scan_single by done.
  rewrite map_app, concat_app. cbn [map concat].
  by rewrite !concat_plain.
Qed.

Lemma re_sub_try_single f (pre inner post : text) :
  inner <> [] -> c ∉ inner -> newline ∉ inner -> o ∉ pre -> o ∉ post ->
  re_sub_try [o; o] [c; c] f (pre ++ [o; o] ++ inner ++ [c; c] ++ post)
  = (fun r => pre ++ r ++ post) <$> f inner.
Proof.
  intros Hne Hc Hn Hpre Hpost.
  change (pre ++ [o; o] ++ inner ++ [c; c] ++ post)
    with (pre ++ (o :: ([o] ++ inner ++ [c; c] ++ post))).
  induction pre as [|x pre IH].
  - cbn [app]. rewrite re_sub_try_cons.
    change (o :: o :: inner ++ c :: c :: post)
      with ([o; o] ++ inner ++ [c; c] ++ post).
    rewrite match_at_single by done.
    rewrite re_sub_try_plain by (by apply re_scan_absent).
    by destruct (f inner).
  - apply not_elem_of_cons in Hpre as [Hx Hpre].
    rewrite <- app_comm_cons, re_sub_try_cons, match_at_no_open
      by (by apply startswith_head_ne).
    rewrite IH by done. by destruct (f inner).
Qed.

End SingleSpan.

Lemma pass_unchanged x p close f (s : text) :
  x ∉ s -> re_sub (x :: p) close f s = s.
Proof. intros H. apply re_sub_plain. by apply re_scan_absent. Qed.

Lemma pass_try_unchanged x p close f (s : text) :
  x ∉ s -> re_sub_try (x :: p) close f s = Some s.
Proof. intros H. apply re_sub_try_plain. by apply re_scan_absent. Qed.

(** A digest holds none of the delimiter characters. *)
Lemma hex_no_delimiter x bs : x ∈ str "[]()*_" -> x ∉ MD5.hex bs.
Proof.
  intros Hx.
  assert (forall d, MD5.hex_digit d <> x) as Hd.
  { intros d. unfold MD5.hex_digit.
    apply list_elem_of_In in Hx. vm_compute in Hx.
    destruct (d <? 10)%N eqn:E;
      [apply N.ltb_lt in E|apply N.ltb_ge in E]; intuition lia. }
  unfold MD5.hex. induction bs as [|b bs IH]; simpl; [apply not_elem_of_nil|].
  rewrite !not_elem_of_cons. repeat split; auto.
Qed.

Lemma md5_hex_no_delimiter x t d :
  x ∈ str "[]()*_" -> md5_hex t = Some d -> x ∉ d.
Proof.
  intros Hx. unfold md5_hex. destruct (Utf8.encode t); simpl; [|done].
  intros [= <-]. by apply hex_no_delimiter.
Qed.

Lemma strip_c_subset x i : x ∉ i -> x ∉ strip_c i.
Proof.
  intros H Hin. apply H. unfold strip_c, remove_char in Hin.
  apply list_elem_of_filter in Hin as [_ Hin].
  by apply list_elem_of_filter in Hin as [_ Hin].
Qed.

(** X6.  In a text that holds no delimiter character besides one span
    with a non-empty inner text on one line, inline processing replaces
    exactly that span: [[[inner]]] by the MD5 hex digest of [inner],
    [((inner))] by [inner] without [c] and [C], [**inner**] by
    [<b>inner</b>] and [__inner__] by [<em>inner</em>]; the text before and
    after the span is kept. *)
Theorem single_span_replaced (pre inner post : text) :
  no_delimiter_char pre = true ->
  no_delimiter_char inner = true ->
  no_delimiter_char post = true ->
  inner <> [] ->
  newline ∉ inner ->
  inline (pre ++ str "[[" ++ inner ++ str "]]" ++ post)
  = (fun d => pre ++ d ++ post) <$> md5_hex inner
  /\ inline (pre ++ str "((" ++ inner ++ str "))" ++ post)
     = Some (pre ++ strip_c inner ++ post)
  /\ inline (pre ++ str "**" ++ inner ++ str "**" ++ post)
     = Some (pre ++ str "<b>" ++ inner ++ str "</b>" ++ post)
  /\ inline (pre ++ str "__" ++ inner ++ str "__" ++ post)
     = Some (pre ++ str "<em>" ++ inner ++ str "</em>" ++ post).
Proof.
  intros Hpre Hinner Hpost Hne Hn.
  assert (forall x, x ∈ str "[]()*_" -> x ∉ pre) as Npre
    by (intros; by eapply no_delimiter_char_notin).
  assert (forall x, x ∈ str "[]()*_" -> x ∉ inner) as Ninner
    by (intros; by eapply no_delimiter_char_notin).
  assert (forall x, x ∈ str "[]()*_" -> x ∉ post) as Npost
    by (intros; by eapply no_delimiter_char_notin).
  assert (forall x : char, In x [91; 93; 40; 41; 42; 95]%N -> x ∈ str "[]()*_")
    as Hdel by (intros x Hx; by apply list_elem_of_In).
  assert (91%N ∈ str "[]()*_" /\ 93%N ∈ str "[]()*_" /\ 40%N ∈ str "[]()*_"
          /\ 41%N ∈ str "[]()*_" /\ 42%N ∈ str "[]()*_" /\ 95%N ∈ str "[]()*_")
    as (D1 & D2 & D3 & D4 & D5 & D6)
    by (repeat split; apply Hdel; vm_compute; tauto).
  unfold inline, process_special_syntax, parse_bold_text.
  change (str "[[") with [91; 91]%N. change (str "]]") with [93; 93]%N.
  change (str "((") with [40; 40]%N. change (str "))") with [41; 41]%N.
  change (str "**") with [42; 42]%N. change (str "__") with [95; 95]%N.
  split; [|split; [|split]].
  - rewrite re_sub_try_single by auto.
    destruct (md5_hex inner) as [d|] eqn:Hd; [|done].
    cbv [mbind option_bind fmap option_fmap option_map].
    assert (forall x, x ∈ str "[]()*_" -> x ∉ pre ++ d ++ post) as Nall.
    { intros x Hx. rewrite !not_elem_of_app.
      repeat split; auto. by eapply md5_hex_no_delimiter. }
    rewrite (pass_unchanged 40%N) by auto.
    rewrite (pass_unchanged 42%N) by auto.
    by rewrite (pass_unchanged 95%N) by auto.
  - assert (forall x, x ∈ str "[]()*_" -> x <> 40%N -> x <> 41%N ->
                      x ∉ pre ++ [40; 40]%N ++ inner ++ [41; 41]%N ++ post)
      as Nall.
    { intros x Hx H1 H2. rewrite !not_elem_of_app, !not_elem_of_cons.
      repeat split; auto using not_elem_of_nil. }
    rewrite pass_try_unchanged by (by apply Nall).
    cbv [mbind option_bind fmap option_fmap option_map].
    rewrite re_sub_single by auto.
    assert (forall x, x ∈ str "[]()*_" -> x ∉ pre ++ strip_c inner ++ post)
      as Nres.
    { intros x Hx. rewrite !not_elem_of_app.
      repeat split; auto using strip_c_subset. }
    rewrite (pass_unchanged 42%N) by auto.
    by rewrite (pass_unchanged 95%N) by auto.
  - assert (forall x, x ∈ str "[]()*_" -> x <> 42%N ->
                      x ∉ pre ++ [42; 42]%N ++ inner ++ [42; 42]%N ++ post)
      as Nall.
    { intros x Hx H1. rewrite !not_elem_of_app, !not_elem_of_cons.
      repeat split; auto using not_elem_of_nil. }
    rewrite pass_try_unchanged by (by apply Nall).
    cbv [mbind option_bind fmap option_fmap option_map].
    rewrite (pass_unchanged 40%N) by (by apply Nall).
    rewrite re_sub_single by auto.
    rewrite pass_unchanged; [by rewrite <- !app_assoc|].
    rewrite !not_elem_of_app. repeat split; auto; absent_in_literal.
  - assert (forall x, x ∈ str "[]()*_" -> x <> 95%N ->
                      x ∉ pre ++ [95; 95]%N ++ inner ++ [95; 95]%N ++ post)
      as Nall.
    { intros x Hx H1. rewrite !not_elem_of_app, !not_elem_of_cons.
      repeat split; auto using not_elem_of_nil. }
    rewrite pass_try_unchanged by (by apply Nall).
    cbv [mbind option_bind fmap option_fmap option_map].
    rewrite (pass_unchanged 40%N) by (by apply Nall).
    rewrite (pass_unchanged 42%N) by (by apply Nall).
    rewrite re_sub_single by auto. by rewrite <- !app_assoc.
Qed.

Lemma single_span_replaced_witness :
  inline (str "say **hello world** now")
  = Some (str "say <b>hello world</b> now")
  /\ inline (str "x ((Cc-Cola)) y") = Some (str "x -ola y").
Proof.
  split.
  - refine (proj1 (proj2 (proj2 (single_span_replaced
              (str "say ") (str "hello world") (str " now") _ _ _ _ _))));
      [vm_compute; reflexivity..|done|absent_in_literal].
  - refine (proj1 (proj2 (single_span_replaced
              (str "x ") (str "Cc-Cola") (str " y") _ _ _ _ _)));
      [vm_compute; reflexivity..|done|absent_in_literal].
Defined.

(** * Further properties of the conversion and the driver *)

(** ** The conversion does not raise on encodable input *)

Lemma process_line_succeeds st line :
  encodable line = true -> exists w st', process_line st line = (w, Some st').
Proof.
  intros He. pose proof (encodable_strip _ He) as Hs.
  assert (forall n, is_Some (inline (strip (drop n (strip line))))) as Hd
    by (intros n; by apply inline_encodable, encodable_strip, encodable_drop).
  rewrite process_line_classify. destruct (classify (strip line)).
  - rewrite heading_line_result. destruct (Hd (length (hd [] (split space (strip line)))))
      as [b ->]. simpl. eauto.
  - rewrite unordered_item_result. destruct (Hd 2) as [b ->]. simpl. eauto.
  - rewrite ordered_item_result. destruct (Hd 2) as [b ->]. simpl. eauto.
  - rewrite paragraph_line_result.
    destruct (inline_encodable _ Hs) as [b ->]. simpl. eauto.
  - rewrite blank_line_result. eauto.
Qed.

Lemma process_lines_succeed lines : forall st,
  forallb encodable lines = true ->
  exists w st', process_lines st lines = (w, Some st').
Proof.
  induction lines as [|l lines IH]; intros st H; [simpl; eauto|].
  simpl in H. apply andb_prop in H as [Hl H].
  rewrite process_lines_cons.
  destruct (process_line_succeeds st l Hl) as (w & st1 & ->).
  destruct (IH st1 H) as (w' & st' & ->). eauto.
Qed.

Lemma flush_succeeds st : exists w, flush st = (w, Some tt).
Proof. destruct st as [[] [] []]; by eexists. Qed.

Lemma convert_succeeds lines :
  forallb encodable lines = true -> exists out, convert lines = (out, Some tt).
Proof.
  intros H. rewrite convert_unfold.
  destruct (process_lines_succeed lines initial H) as (w & st & ->).
  destruct (flush_succeeds st) as (w' & ->). eauto.
Qed.

Lemma read_lines_encodable content :
  encodable content = true -> forallb encodable (read_lines content) = true.
Proof.
  intros Hc. apply forallb_forall. intros l Hl%list_elem_of_In.
  apply encodable_elem. intros x Hx.
  apply (split_lines_elem _ _ _ Hl) in Hx.
  apply translate_newlines_elem in Hx as [Hx| ->]; [|done].
  by apply (proj1 (encodable_elem content) Hc).
Qed.

(** ** The driver *)

(** With fewer than two arguments after the program name, [main]
    prints the usage line, exits with code 1 and touches no file, whatever
    the arguments name. *)
Theorem main_usage (argv : list text) (w : world) :
  (length argv < 3)%nat ->
  main argv w = (World (files w) (stderr w ++ [Usage]), 1%Z).
Proof.
  intros H. unfold main.
  by destruct (Nat.ltb_spec (length argv) 3); [|lia].
Qed.

Lemma main_usage_witness :
  main [str "./markdown2html.py"; str "README.md"]
       (World {[ str "README.md" := File (str "# t") ]} [])
  = (World {[ str "README.md" := File (str "# t") ]} [Usage], 1%Z).
Proof.
  assert (length [str "./markdown2html.py"; str "README.md"] < 3)%nat as H
    by (simpl; lia).
  exact (main_usage [str "./markdown2html.py"; str "README.md"]
           (World {[ str "README.md" := File (str "# t") ]} []) H).
Defined.

(** X8.  When the input path names a regular file whose text can be
    encoded and the output path names another file, an existing regular
    file or a vacant path, [main] exits with code 0, prints nothing, and
    the file the output path names holds exactly the lines the conversion
    writes for the lines of the input, each followed by a newline.  Two
    paths that are names of one file do not name different files. *)
Theorem main_converts (argv : list text) (w : world) (content : text) :
  (3 <= length argv)%nat ->
  files w !! resolve w (nth 1 argv []) = Some (File content) ->
  (files w !! resolve w (nth 2 argv []) = Some Vacant
   \/ exists old, files w !! resolve w (nth 2 argv []) = Some (File old)) ->
  resolve w (nth 1 argv []) <> resolve w (nth 2 argv []) ->
  encodable content = true ->
  exists out,
    convert (read_lines content) = (out, Some tt)
    /\ main argv w
       = (World (<[resolve w (nth 2 argv []) := File (render out)]> (files w))
                (stderr w),
          0%Z).
Proof.
  intros Hlen Hin Hout Hne Henc.
  destruct (convert_succeeds _ (read_lines_encodable _ Henc)) as [out Hconv].
  exists out. split; [done|]. unfold main.
  destruct (Nat.ltb_spec (length argv) 3); [lia|].
  unfold isfile. rewrite Hin. cbn [negb].
  unfold convert_markdown_to_html. cbv zeta. rewrite Hin.
  assert (<[resolve w (nth 2 argv []) := File []]> (files w)
            !! resolve w (nth 1 argv [])
          = Some (File content)) as Hread
    by (by rewrite lookup_insert_ne).
  destruct Hout as [Ho|[old Ho]]; rewrite Ho, Hread, Hconv, insert_insert_eq; done.
Qed.

Lemma main_converts_witness :
  main [str "./markdown2html.py"; str "./README.md"; str "README.html"]
       (World {[ str "README.md" := File (str "# t");
                 str "./README.md" := Alias (str "README.md");
                 str "README.html" := Vacant ]} [])
  = (World (<[str "README.html" := File (str "<h1>t</h1>" ++ [newline])]>
              {[ str "README.md" := File (str "# t");
                 str "./README.md" := Alias (str "README.md");
                 str "README.html" := Vacant ]}) [], 0%Z).
Proof.
  destruct (main_converts
              [str "./markdown2html.py"; str "./README.md"; str "README.html"]
              (World {[ str "README.md" := File (str "# t");
                        str "./README.md" := Alias (str "README.md");
                        str "README.html" := Vacant ]} []) (str "# t"))
    as (out & Hconv & Hmain).
  - simpl. lia.
  - vm_compute. reflexivity.
  - left. vm_compute. reflexivity.
  - vm_compute. discriminate.
  - vm_compute. reflexivity.
  - rewrite Hmain. assert (out = [str "<h1>t</h1>"]) as ->.
    { assert (convert (read_lines (str "# t")) = ([str "<h1>t</h1>"], Some tt))
        as Hc by (vm_compute; reflexivity).
      congruence. }
    vm_compute. reflexivity.
Defined.

Lemma convert_markdown_to_html_outcome md out w :
  (exists fs, convert_markdown_to_html md out w = (World fs (stderr w), Returned))
  \/ (exists fs, convert_markdown_to_html md out w
                 = (World fs (stderr w ++ [Error]), Exited 1)).
Proof.
  unfold convert_markdown_to_html, print_err. cbv zeta.
  destruct (files w !! resolve w md) as [[c| | |]|]; [|right; eauto..].
  destruct (files w !! resolve w out) as [[c'| | |]|];
    [|right; eauto|right; eauto| |right; eauto];
    destruct (convert _) as [o [[]|]]; simpl; eauto.
Qed.

(** X9.  Every run of [main] ends in one of two ways: exit code 0 with
    nothing printed to the error stream, or exit code 1 with exactly one
    message printed; no other exit code occurs and success is never
    reported after a message. *)
Theorem main_exit_code (argv : list text) (w : world) :
  (snd (main argv w) = 0%Z /\ stderr (fst (main argv w)) = stderr w)
  \/ (snd (main argv w) = 1%Z
      /\ exists m, stderr (fst (main argv w)) = stderr w ++ [m]).
Proof.
  unfold main. destruct (length argv <? 3)%nat; [right; simpl; eauto|].
  destruct (isfile w (nth 1 argv [])); simpl; [|right; eauto].
  destruct (convert_markdown_to_html_outcome (nth 1 argv []) (nth 2 argv []) w)
    as [[fs ->]|[fs ->]]; simpl; eauto.
Qed.

(** X10.  [main] changes nothing but the file the output path names:
    whatever is stored under any other path, the input file included when
    the output path is not one of its names, is as before, and so is what
    every path names. *)
Theorem main_touches_output_only (argv : list text) (w : world) (path : text) :
  path <> resolve w (nth 2 argv []) ->
  files (fst (main argv w)) !! path = files w !! path.
Proof.
  intros Hne. unfold main. destruct (length argv <? 3)%nat; [done|].
  destruct (isfile w (nth 1 argv [])); simpl; [|done].
  unfold convert_markdown_to_html. cbv zeta.
  destruct (files w !! resolve w (nth 1 argv [])) as [[c| | |]|]; [|done..].
  destruct (files w !! resolve w (nth 2 argv [])) as [[c'| | |]|];
    [|done|done| |done];
    destruct (convert _) as [o [[]|]]; simpl;
    by rewrite !lookup_insert_ne.
Qed.

Lemma main_touches_output_only_witness :
  files (fst (main [str "./markdown2html.py"; str "a.md"; str "out.html"]
                   (World {[ str "a.md" := File (str "text");
                             str "out.html" := Alias (str "a.html");
                             str "a.html" := Vacant ]} [])))
    !! str "a.md" = Some (File (str "text")).
Proof.
  etransitivity;
    [apply (main_touches_output_only
              [str "./markdown2html.py"; str "a.md"; str "out.html"]
              (World {[ str "a.md" := File (str "text");
                        str "out.html" := Alias (str "a.html");
                        str "a.html" := Vacant ]} []) (str "a.md"))|].
  - vm_compute. discriminate.
  - vm_compute. reflexivity.
Defined.



(** ** One written line is one line of the output file *)

Lemma format_int_no_newline n : newline ∉ format_int n.
Proof.
  unfold format_int. induction (Nat.to_uint n) as [|d IH|d IH|d IH|d IH|d IH
                                                   |d IH|d IH|d IH|d IH|d IH];
    simpl; [apply not_elem_of_nil|..];
    apply not_elem_of_cons; (split; [done|exact IH]).
Qed.

Lemma inline_no_newline t r : newline ∉ t -> inline t = Some r -> newline ∉ r.
Proof.
  intros Hn. unfold inline, process_special_syntax.
  destruct (re_sub_try (str "[[") (str "]]") md5_hex t) as [t1|] eqn:H1;
    [|done].
  cbn. intros [= <-].
  assert (newline ∉ t1) as Hn1.
  { eapply re_sub_try_no_newline; [|exact Hn|exact H1].
    apply md5_hex_no_newline. }
  unfold parse_bold_text.
  apply re_sub_keeps_no_newline; [apply em_html_no_newline|].
  apply re_sub_keeps_no_newline; [apply bold_html_no_newline|].
  apply re_sub_keeps_no_newline; [|done].
  intros i Hi. by apply strip_c_subset.
Qed.

(** Lines made of literals and of texts without newline. *)
Ltac no_newline_lines :=
  repeat first
    [ apply Forall_nil_2
    | apply Forall_cons_2
    | apply Forall_app_2 ];
  try (unfold heading_html);
  rewrite ?not_elem_of_app;
  repeat split;
  first [ assumption | apply format_int_no_newline | absent_in_literal ].

(** The written lines of an equation [(w', r') = (w, r)]. *)
Ltac take_writes :=
  let Heq := fresh in
  intros Heq; apply (f_equal fst) in Heq; cbv beta iota delta [fst] in Heq;
  subst.

Lemma process_line_no_newline st line w r :
  newline ∉ strip line ->
  process_line st line = (w, r) -> Forall (fun x => newline ∉ x) w.
Proof.
  intros Hn.
  assert (forall n b, inline (strip (drop n (strip line))) = Some b ->
                      newline ∉ b) as Hd.
  { intros n b. apply inline_no_newline.
    intros Hx%strip_subset. apply Hn. by eapply subseteq_drop. }
  rewrite process_line_classify. destruct (classify (strip line)).
  - rewrite heading_line_result.
    destruct (inline _) as [b|] eqn:Hb; take_writes;
      [pose proof (Hd _ _ Hb)|];
      destruct st as [[] [] []]; cbn [in_unordered_list in_ordered_list in_paragraph closing_tags
           closing_list_tags andb]; no_newline_lines.
  - rewrite unordered_item_result.
    destruct (inline _) as [b|] eqn:Hb; take_writes;
      [pose proof (Hd _ _ Hb)|];
      destruct st as [[] [] []]; cbn [in_unordered_list in_ordered_list in_paragraph closing_tags
           closing_list_tags andb]; no_newline_lines.
  - rewrite ordered_item_result.
    destruct (inline _) as [b|] eqn:Hb; take_writes;
      [pose proof (Hd _ _ Hb)|];
      destruct st as [[] [] []]; cbn [in_unordered_list in_ordered_list in_paragraph closing_tags
           closing_list_tags andb]; no_newline_lines.
  - rewrite paragraph_line_result.
    destruct (inline _) as [b|] eqn:Hb; take_writes;
      [pose proof (inline_no_newline _ _ Hn Hb)|];
      destruct st as [[] [] []]; cbn [in_unordered_list in_ordered_list in_paragraph closing_tags
           closing_list_tags andb]; no_newline_lines.
  - rewrite blank_line_result. take_writes.
    destruct st as [[] [] []]; cbn [in_unordered_list in_ordered_list in_paragraph closing_tags
           closing_list_tags andb]; no_newline_lines.
Qed.

Lemma process_lines_no_newline lines : forall st w r,
  Forall (fun l => newline ∉ strip l) lines ->
  process_lines st lines = (w, r) -> Forall (fun x => newline ∉ x) w.
Proof.
  induction lines as [|l lines IH]; intros st w r Hall.
  - intros [= <- <-]. constructor.
  - apply Forall_cons in Hall as [Hl Hall]. rewrite process_lines_cons.
    destruct (process_line st l) as [w1 [st1|]] eqn:H1.
    + destruct (process_lines st1 lines) as [w2 r2] eqn:H2.
      intros [= <- <-]. apply Forall_app. split.
      * by eapply process_line_no_newline.
      * by eapply IH.
    + intros [= <- <-]. by eapply process_line_no_newline.
Qed.

Lemma convert_no_newline lines out r :
  Forall (fun l => newline ∉ strip l) lines ->
  convert lines = (out, r) -> Forall (fun x => newline ∉ x) out.
Proof.
  intros Hall. rewrite convert_unfold.
  destruct (process_lines initial lines) as [w [st|]] eqn:H1.
  - destruct (flush st) as [w' r'] eqn:H2. intros [= <- <-].
    apply Forall_app. split; [by eapply process_lines_no_newline|].
    destruct st as [[] [] []]; injection H2 as <- <-; no_newline_lines.
  - intros [= <- <-]. by eapply process_lines_no_newline.
Qed.

Lemma split_lines_line (l rest : text) :
  newline ∉ l ->
  split_lines (l ++ [newline] ++ rest) = (l ++ [newline]) :: split_lines rest.
Proof.
  induction l as [|c l IH]; intros Hn.
  - reflexivity.
  - apply not_elem_of_cons in Hn as [Hc Hn].
    change ((c :: l) ++ [newline] ++ rest) with (c :: (l ++ [newline] ++ rest)).
    cbn [split_lines].
    assert ((c =? newline)%N = false) as -> by (apply N.eqb_neq; congruence).
    by rewrite IH.
Qed.

Lemma split_lines_render out :
  Forall (fun x => newline ∉ x) out ->
  split_lines (render out) = map (fun l => l ++ [newline]) out.
Proof.
  unfold render. induction 1 as [|l out Hl Hout IH]; [done|].
  simpl. rewrite <- app_assoc, split_lines_line by done. by rewrite IH.
Qed.

(** X12.  No line the conversion writes for the lines of an input file
    holds a newline, whatever the input and whether or not the conversion
    raises.  So the text of the output file splits back into exactly the
    written lines: the file has one line per [write]. *)
Theorem output_file_lines (content : text) (out : list text) (r : option unit) :
  convert (read_lines content) = (out, r) ->
  Forall (fun x => newline ∉ x) out
  /\ split_lines (render out) = map (fun l => l ++ [newline]) out
  /\ length (split_lines (render out)) = length out.
Proof.
  intros Hconv.
  assert (Forall (fun x => newline ∉ x) out) as Hout.
  { eapply convert_no_newline; [|exact Hconv].
    apply Forall_forall. intros l Hl. by eapply read_line_stripped. }
  split; [done|]. rewrite split_lines_render by done.
  split; [done|]. by rewrite length_map.
Qed.

Lemma output_file_lines_witness :
  split_lines (render [str "<p>"; str "    a"; str "    <br/>"; str "    b";
                       str "</p>"])
  = [str "<p>" ++ [newline]; str "    a" ++ [newline];
     str "    <br/>" ++ [newline]; str "    b" ++ [newline];
     str "</p>" ++ [newline]].
Proof.
  refine (proj1 (proj2 (output_file_lines (str "a" ++ [13%N; newline] ++ str "b")
            [str "<p>"; str "    a"; str "    <br/>"; str "    b"; str "</p>"]
            (Some tt) _))).
  vm_compute. reflexivity.
Defined.

(** ** Blank input *)

(** X13.  An input made of blank lines only, the empty input included,
    writes nothing and does not raise: the output file is empty. *)
Theorem blank_input_empty_output (lines : list text) :
  forallb is_blank lines = true ->
  convert lines = ([], Some tt) /\ render [] = [].
Proof.
  intros H. split; [|done]. rewrite convert_unfold.
  assert (process_lines initial lines = ([], Some initial)) as ->; [|done].
  induction lines as [|l lines IH]; [done|].
  simpl in H. apply andb_prop in H as [Hl H].
  apply bool_decide_eq_true in Hl.
  rewrite process_lines_cons, process_line_blank by done.
  change (set_paragraph false initial) with initial.
  by rewrite IH.
Qed.

Lemma blank_input_empty_output_witness :
  convert [[newline]; str "   " ++ [newline]; [9%N; newline]] = ([], Some tt).
Proof.
  refine (proj1 (blank_input_empty_output
                   [[newline]; str "   " ++ [newline]; [9%N; newline]] _)).
  vm_compute. reflexivity.
Defined.

(** ** The order of the passes *)

(** X7.  The hash pass runs first and its digest holds no delimiter, so
    whatever stands inside a hash span is hashed as it is: strip and
    emphasis delimiters in the inner text of [[[...]]] have no effect of
    their own.  The inner text is any non-empty text on one line without
    []]; the text around the span holds no delimiter character. *)
Theorem hash_span_shields_inner (pre inner post : text) :
  no_delimiter_char pre = true ->
  no_delimiter_char post = true ->
  inner <> [] ->
  93%N ∉ inner ->
  newline ∉ inner ->
  inline (pre ++ str "[[" ++ inner ++ str "]]" ++ post)
  = (fun d => pre ++ d ++ post) <$> md5_hex inner.
Proof.
  intros Hpre Hpost Hne Hc Hn.
  assert (forall x, x ∈ str "[]()*_" -> x ∉ pre) as Npre
    by (intros; by eapply no_delimiter_char_notin).
  assert (forall x, x ∈ str "[]()*_" -> x ∉ post) as Npost
    by (intros; by eapply no_delimiter_char_notin).
  assert (91%N ∈ str "[]()*_" /\ 40%N ∈ str "[]()*_"
          /\ 42%N ∈ str "[]()*_" /\ 95%N ∈ str "[]()*_")
    as (D1 & D3 & D5 & D6)
    by (repeat split; apply list_elem_of_In; vm_compute; tauto).
  unfold inline, process_special_syntax, parse_bold_text.
  change (str "[[") with [91; 91]%N. change (str "]]") with [93; 93]%N.
  change (str "((") with [40; 40]%N. change (str "**") with [42; 42]%N.
  change (str "__") with [95; 95]%N.
  rewrite re_sub_try_single by auto.
  destruct (md5_hex inner) as [d|] eqn:Hd; [|done].
  cbv [mbind option_bind fmap option_fmap option_map].
  assert (forall x, x ∈ str "[]()*_" -> x ∉ pre ++ d ++ post) as Nall.
  { intros x Hx. rewrite !not_elem_of_app.
    repeat split; auto. by eapply md5_hex_no_delimiter. }
  rewrite (pass_unchanged 40%N) by auto.
  rewrite (pass_unchanged 42%N) by auto.
  by rewrite (pass_unchanged 95%N) by auto.
Qed.

Lemma hash_span_shields_inner_witness :
  inline (str "id [[**a** ((c)) __b__]] end")
  = (fun d => str "id " ++ d ++ str " end") <$> md5_hex (str "**a** ((c)) __b__").
Proof.
  refine (hash_span_shields_inner (str "id ") (str "**a** ((c)) __b__")
            (str " end") _ _ _ _ _);
    [vm_compute; reflexivity..|done|absent_in_literal|absent_in_literal].
Defined.
